(** * ChainBridge: the Ethereum chain and its Listener

    A shallow embedding of [chains/ethereum/chain.go] (the [Chain] type with
    [setupBlockstore], [InitializeChain], [SetRouter], [Start], [Id], [Name],
    [GetWriter] and [Stop]) and
    of the test file of the Listener ([MockRouter], [createTestListener] and
    the two tests), together with the properties the specification states
    about them.

    Go values are embedded as follows.
    - A [big.Int] is a [Z]; [Cmp] returns [-1], [0] or [1].
    - The Go result pair (pointer, error) of a function of the source is a
      pair of options, [None] standing for [nil].
    - Calls that leave [chain.go] (the blockstore, the keystore, the RPC
      client, the contract bindings, the Listener, the Writer and the Router)
      are answered by an environment [Env]; every such call is appended to a
      trace with the error it answered, so that the order and the outcome of
      the calls can be stated.
    - The Listener itself is not among the source files: [ListenerModel]
      follows the specification, and so does [ensureHasBytecode]. *)

From stdpp Require Import base option list sorting strings.
From Stdlib Require Import ZArith Lia.
From Stdlib Require Strings.Byte.

Local Open Scope Z_scope.

(** ** Basic data *)

(** [msg.ChainId]: an unsigned integer identifying a chain. *)
Definition ChainId := N.

(** [common.Address]: 20 bytes, read as a 160-bit number. *)
Definition Address := N.

(** Go's [error]; the constructors follow the error taxonomy of the
    specification, [OtherError] covers errors of the collaborators. *)
Inductive error :=
| ConfigurationError (what : string)
| TransientRPCError (what : string)
| OtherError (what : string).

(** [big.Int.Cmp]. *)
Definition Cmp (x y : Z) : Z :=
  match x ?= y with
  | Lt => -1
  | Eq => 0
  | Gt => 1
  end.

(** [core.ChainConfig], the fields the chain reads. *)
Record ChainConfig := {
  Id : ChainId;
  Name : string;
  Insecure : bool;
}.

(** The parsed [Config] of the ethereum package, the fields [chain.go] reads. *)
Record Config := {
  id : ChainId;
  from : string;
  keystorePath : string;
  blockstorePath : string;
  freshStart : bool;
  startBlock : Z;
  bridgeContract : Address;
  erc20HandlerContract : Address;
  genericHandlerContract : Address;
}.

(** [cfg.startBlock = latestBlock]. *)
Definition set_startBlock (cfg : Config) (b : Z) : Config :=
  {| id := id cfg; from := from cfg; keystorePath := keystorePath cfg;
     blockstorePath := blockstorePath cfg; freshStart := freshStart cfg;
     startBlock := b;
     bridgeContract := bridgeContract cfg;
     erc20HandlerContract := erc20HandlerContract cfg;
     genericHandlerContract := genericHandlerContract cfg |}.

(** ** Calls that leave the source files *)

(** The key type [keystore.KeypairFromAddress] is asked for. *)
Inductive ChainType := EthChain.

(** The collaborators of [chain.go]: their types, and what each call
    answers.  An object behind a pointer is passed as a value, and a method
    that changes its receiver returns the new value; a [Router] is the pointer
    itself, since the chains share it. *)
Record Env := {
  Keypair : Type;          (* secp256k1.Keypair *)
  OtherKeypair : Type;     (* any other implementation of crypto.Keypair *)
  Blockstore : Type;
  Logger : Type;
  Client : Type;           (* the RPC client, the field conn.conn *)
  Connection : Type;
  Bridge : Type;
  ERC20Handler : Type;
  Listener : Type;
  Writer : Type;
  Router : Type;
  parseChainConfig : ChainConfig → Config + error;
  KeypairFromAddress :
    string → ChainType → string → bool → (Keypair + OtherKeypair) + error;
  Keypair_Address : option Keypair → string;
  NewBlockstore : string → ChainId → string → Blockstore + error;
  TryLoadLatestBlock : Blockstore → Z + error;
  NewConnection : Config → option Keypair → Logger → Connection;
  Connect : Connection → Connection * option error;
  conn_conn : Connection → Client;
  CodeAt : Client → Address → list Byte.byte + error;
  NewBridge : Address → Client → Bridge + error;
  NewERC20Handler : Address → Client → ERC20Handler + error;
  NewListener : Connection → Config → Logger → option Blockstore → Listener;
  Listener_SetContracts : Listener → Bridge → ERC20Handler → Listener;
  NewWriter : Connection → Config → Logger → Writer;
  Writer_SetContract : Writer → Bridge → Writer;
  (* [Some err]: the call does not return (the registration is refused) *)
  Router_Listen : Router → ChainId → Writer → option error;
  Listener_SetRouter : Listener → Router → Listener;
  Listener_Start : Listener → Listener * option error;
  Writer_Start : Writer → Writer * option error;
  Writer_log_Debug : Writer → string → unit;
  Listener_Stop : Listener → Listener * option error;
  Writer_Stop : Writer → Writer * option error;
  Connection_Close : Connection → Connection;
}.

(** One event per call that leaves the source, with the receiver and the
    arguments the claims speak about. *)
Inductive Event (E : Env) :=
| EParseChainConfig (chainCfg : ChainConfig)
| EKeypairFromAddress (addr : string)
| ENewBlockstore
| ETryLoadLatestBlock
| ENewConnection
| EConnect
| EEnsureHasBytecode (addr : Address)
| ENewBridge (addr : Address)
| ENewERC20Handler (addr : Address)
| ENewListener
| EListenerSetContracts
| ENewWriter
| EWriterSetContract
| ERouterListen (r : Router E) (id : ChainId) (w : Writer E)
| EListenerSetRouter (l : Listener E) (r : Router E)
| EListenerStart (l : Listener E)
| EWriterStart (w : Writer E)
| EWriterLogDebug (w : Writer E) (msg : string)
| EListenerStop (l : Listener E)
| EWriterStop (w : Writer E)
| EConnClose (c : Connection E).

Arguments EParseChainConfig {E}.
Arguments EKeypairFromAddress {E}.
Arguments ENewBlockstore {E}.
Arguments ETryLoadLatestBlock {E}.
Arguments ENewConnection {E}.
Arguments EConnect {E}.
Arguments EEnsureHasBytecode {E}.
Arguments ENewBridge {E}.
Arguments ENewERC20Handler {E}.
Arguments ENewListener {E}.
Arguments EListenerSetContracts {E}.
Arguments ENewWriter {E}.
Arguments EWriterSetContract {E}.
Arguments ERouterListen {E}.
Arguments EListenerSetRouter {E}.
Arguments EListenerStart {E}.
Arguments EWriterStart {E}.
Arguments EWriterLogDebug {E}.
Arguments EListenerStop {E}.
Arguments EWriterStop {E}.
Arguments EConnClose {E}.

(** ** The trace monad *)

(** A trace entry: the call, and the error it answered ([None]: success). *)
Definition Entry (E : Env) : Type := Event E * option error.

Definition M (E : Env) (A : Type) : Type := list (Entry E) → A * list (Entry E).

Global Instance M_ret E : MRet (M E) := λ A a tr, (a, tr).

Global Instance M_bind E : MBind (M E) :=
  λ A B k m tr, let '(a, tr') := m tr in k a tr'.

(** An external call: the answer is the environment's; the call is logged
    with the error read off the answer by [outcome]. *)
Definition call {E A} (ev : Event E) (outcome : A → option error) (answer : A)
  : M E A :=
  λ tr, (answer, tr ++ [(ev, outcome answer)]).

(** The error of an answer [(value, error)], of an answer that is one or the
    other, and of an answer that is the error; constructors and setters
    answer no error. *)
Definition err_of_pair {A} (r : A * option error) : option error := r.2.

Definition err_of_sum {A} (r : A + error) : option error :=
  match r with inl _ => None | inr e => Some e end.

Definition err_of_opt (r : option error) : option error := r.

Definition no_err {A} (_ : A) : option error := None.

(** Running a computation from the empty trace. *)
Definition run {E A} (m : M E A) : A * list (Entry E) := m [].

(** The calls of a trace. *)
Definition calls {E} (tr : list (Entry E)) : list (Event E) := tr.*1.

Section Chain.
Context (E : Env).

(** [type Chain struct]. *)
Record Chain := {
  cfg : ChainConfig;
  conn : Connection E;
  listener : Listener E;
  writer : Writer E;
}.

Definition createBridgeContract (addr : Address) (conn : Connection E)
  : M E (Bridge E + error) :=
  call (ENewBridge addr) err_of_sum (NewBridge E addr (conn_conn E conn)).

Definition createErc20HandlerContract (addr : Address) (conn : Connection E)
  : M E (ERC20Handler E + error) :=
  call (ENewERC20Handler addr) err_of_sum (NewERC20Handler E addr (conn_conn E conn)).

(** *** [setupBlockstore] *)

(** The configuration is reached through a pointer; the function returns it
    as it is left, next to the Go result pair. *)
Definition setupBlockstore (cfg : Config) (kp : option (Keypair E))
  : M E (Config * (option (Blockstore E) * option error)) :=
  r ← call ENewBlockstore err_of_sum
        (NewBlockstore E (blockstorePath cfg) (id cfg) (Keypair_Address E kp));
  match r with
  | inr err => mret (cfg, (None, Some err))
  | inl bs =>
      if negb (freshStart cfg) then
        r ← call ETryLoadLatestBlock err_of_sum (TryLoadLatestBlock E bs);
        match r with
        | inr err => mret (cfg, (None, Some err))
        | inl latestBlock =>
            if Cmp latestBlock (startBlock cfg) =? 1
            then mret (set_startBlock cfg latestBlock, (Some bs, None))
            else mret (cfg, (Some bs, None))
        end
      else mret (cfg, (Some bs, None))
  end.

(** *** [Connection.ensureHasBytecode] *)

(** Modelled from the spec: [Connection.ensureHasBytecode] is not among the
    source files.  Section 4.3: the Connection verifies that the target
    address holds deployed code and fails with a [ConfigurationError] when it
    does not; an error of the RPC call itself is returned as it is. *)
Definition ensureHasBytecode (conn : Connection E) (addr : Address)
  : M E (option error) :=
  call (EEnsureHasBytecode addr) err_of_opt
    match CodeAt E (conn_conn E conn) addr with
    | inr err => Some err
    | inl [] => Some (ConfigurationError "no bytecode found")
    | inl (_ :: _) => None
    end.

(** *** [InitializeChain] *)

Definition InitializeChain (chainCfg : ChainConfig) (logger : Logger E)
  : M E (option Chain * option error) :=
  r ← call (EParseChainConfig chainCfg) err_of_sum (parseChainConfig E chainCfg);
  match r with
  | inr err => mret (None, Some err)
  | inl cfg =>
  r ← call (EKeypairFromAddress (from cfg)) err_of_sum
        (KeypairFromAddress E (from cfg) EthChain (keystorePath cfg)
           (Insecure chainCfg));
  match r with
  | inr err => mret (None, Some err)
  | inl kpI =>
  (* the type assertion to the secp256k1 key pair: nil when it fails *)
  let kp := match kpI with inl k => Some k | inr _ => None end in
  '(cfg, (bs, err)) ← setupBlockstore cfg kp;
  match err with
  | Some err => mret (None, Some err)
  | None =>
  conn ← call ENewConnection no_err (NewConnection E cfg kp logger);
  '(conn, err) ← call EConnect err_of_pair (Connect E conn);
  match err with
  | Some err => mret (None, Some err)
  | None =>
  err ← ensureHasBytecode conn (bridgeContract cfg);
  match err with
  | Some err => mret (None, Some err)
  | None =>
  err ← ensureHasBytecode conn (erc20HandlerContract cfg);
  match err with
  | Some err => mret (None, Some err)
  | None =>
  err ← ensureHasBytecode conn (genericHandlerContract cfg);
  match err with
  | Some err => mret (None, Some err)
  | None =>
  r ← createBridgeContract (bridgeContract cfg) conn;
  match r with
  | inr err => mret (None, Some err)
  | inl bridgeContract =>
  r ← createErc20HandlerContract (erc20HandlerContract cfg) conn;
  match r with
  | inr err => mret (None, Some err)
  | inl erc20HandlerContract =>
  listener ← call ENewListener no_err (NewListener E conn cfg logger bs);
  listener ← call EListenerSetContracts no_err
               (Listener_SetContracts E listener bridgeContract
                  erc20HandlerContract);
  writer ← call ENewWriter no_err (NewWriter E conn cfg logger);
  writer ← call EWriterSetContract no_err (Writer_SetContract E writer bridgeContract);
  mret (Some {| cfg := chainCfg; conn := conn; writer := writer;
                listener := listener |}, None)
  end end end end end end end end end.

(** *** [Chain.SetRouter] *)

(** [r.Listen] returns nothing; when it does not return (it answers the
    error it stops with), neither does [SetRouter]. *)
Definition SetRouter (c : Chain) (r : Router E) : M E (Chain + error) :=
  stopped ← call (ERouterListen r (Id (cfg c)) (writer c)) err_of_opt
              (Router_Listen E r (Id (cfg c)) (writer c));
  match stopped with
  | Some err => mret (inr err)
  | None =>
      l ← call (EListenerSetRouter (listener c) r) no_err
            (Listener_SetRouter E (listener c) r);
      mret (inl {| cfg := cfg c; conn := conn c; listener := l;
                   writer := writer c |})
  end.

(** *** [Chain.Start] *)

Definition Start (c : Chain) : M E (Chain * option error) :=
  '(l, err) ← call (EListenerStart (listener c)) err_of_pair
               (Listener_Start E (listener c));
  let c := {| cfg := cfg c; conn := conn c; listener := l; writer := writer c |} in
  match err with
  | Some err => mret (c, Some err)
  | None =>
      '(w, err) ← call (EWriterStart (writer c)) err_of_pair
                   (Writer_Start E (writer c));
      let c := {| cfg := cfg c; conn := conn c; listener := listener c;
                  writer := w |} in
      match err with
      | Some err => mret (c, Some err)
      | None =>
          _ ← call (EWriterLogDebug (writer c) "Successfully started chain") no_err
                (Writer_log_Debug E (writer c) "Successfully started chain");
          mret (c, None)
      end
  end.

(** *** [Chain.Id], [Chain.Name] and [Chain.GetWriter] *)

(** The methods [Id] and [Name] of [Chain]; the fields of [ChainConfig] they
    read have these names already. *)
Definition Chain_Id (c : Chain) : ChainId := Id (cfg c).

Definition Chain_Name (c : Chain) : string := Name (cfg c).

(** The Writer behind the interface value [chains.Writer]. *)
Definition GetWriter (c : Chain) : Writer E := writer c.

(** *** [Chain.Stop] *)

Definition Stop (c : Chain) : M E (Chain * option error) :=
  '(l, err) ← call (EListenerStop (listener c)) err_of_pair
               (Listener_Stop E (listener c));
  let c := {| cfg := cfg c; conn := conn c; listener := l; writer := writer c |} in
  match err with
  | Some err => mret (c, Some err)
  | None =>
      '(w, err) ← call (EWriterStop (writer c)) err_of_pair
                   (Writer_Stop E (writer c));
      let c := {| cfg := cfg c; conn := conn c; listener := listener c;
                  writer := w |} in
      match err with
      | Some err => mret (c, Some err)
      | None =>
          cn ← call (EConnClose (conn c)) no_err (Connection_Close E (conn c));
          mret ({| cfg := cfg c; conn := cn; listener := listener c;
                   writer := writer c |}, None)
      end
  end.

End Chain.

Arguments cfg {E}.
Arguments conn {E}.
Arguments listener {E}.
Arguments writer {E}.
Arguments Chain_Id {E}.
Arguments Chain_Name {E}.
Arguments GetWriter {E}.

(** ** A concrete environment *)

(** What the collaborators answer in one scenario.  The objects are small:
    a key pair is its address, a blockstore is the block it has stored, a
    connection is whether it is connected, a Listener or Writer is the number
    of times it was started less the number of times it was stopped, a Router
    is its name. *)
Record Scenario := {
  sc_parse : ChainConfig → Config + error;
  sc_keypair : (string + unit) + error;
  sc_blockstore : option error;
  sc_latest : Z + error;
  sc_connect : option error;
  sc_code : Address → list Byte.byte + error;
  sc_bridge : option error;
  sc_erc20 : option error;
  sc_listen : option error;
  sc_listener_start : option error;
  sc_writer_start : option error;
  sc_listener_stop : option error;
  sc_writer_stop : option error;
}.

Definition scenarioEnv (s : Scenario) : Env := {|
  Keypair := string;
  OtherKeypair := unit;
  Blockstore := Z + error;
  Logger := unit;
  Client := unit;
  Connection := bool;
  Bridge := Address;
  ERC20Handler := Address;
  Listener := Z;
  Writer := Z;
  Router := string;
  parseChainConfig := sc_parse s;
  KeypairFromAddress := λ _ _ _ _, sc_keypair s;
  Keypair_Address := λ kp, default "" kp;
  NewBlockstore := λ _ _ _,
    match sc_blockstore s with Some e => inr e | None => inl (sc_latest s) end;
  TryLoadLatestBlock := λ bs, bs;
  NewConnection := λ _ _ _, false;
  Connect := λ c,
    match sc_connect s with
    | Some e => (c, Some e)
    | None => (true, None)
    end;
  conn_conn := λ _, ();
  CodeAt := λ _ a, sc_code s a;
  NewBridge := λ a _, match sc_bridge s with Some e => inr e | None => inl a end;
  NewERC20Handler := λ a _,
    match sc_erc20 s with Some e => inr e | None => inl a end;
  NewListener := λ _ _ _ _, 0;
  Listener_SetContracts := λ l _ _, l;
  NewWriter := λ _ _ _, 0;
  Writer_SetContract := λ w _, w;
  Router_Listen := λ _ _ _, sc_listen s;
  Listener_SetRouter := λ l _, l;
  Listener_Start := λ l,
    match sc_listener_start s with Some e => (l, Some e) | None => (l + 1, None) end;
  Writer_Start := λ w,
    match sc_writer_start s with Some e => (w, Some e) | None => (w + 1, None) end;
  Writer_log_Debug := λ _ _, ();
  Listener_Stop := λ l,
    match sc_listener_stop s with Some e => (l, Some e) | None => (l - 1, None) end;
  Writer_Stop := λ w,
    match sc_writer_stop s with Some e => (w, Some e) | None => (w - 1, None) end;
  Connection_Close := λ _, false;
|}.

(** A configuration with start height 5. *)
Definition cfg0 : Config := {|
  id := 0%N; from := "0xff93"; keystorePath := "./keys";
  blockstorePath := "./blockstore"; freshStart := false; startBlock := 5;
  bridgeContract := 1%N; erc20HandlerContract := 2%N;
  genericHandlerContract := 3%N |}.

Definition chainCfg0 : ChainConfig :=
  {| Id := 0%N; Name := "alice"; Insecure := false |}.

Definition code0 : list Byte.byte := [Byte.x60; Byte.x80].

(** The scenarios in which the blockstore holds block 9 and every call
    succeeds, but for the code found at the addresses, the answer of
    [Connect] and the answer of [Listener.Start]. *)
Definition scenario (code : Address → list Byte.byte + error)
    (connect listener_start : option error) : Scenario := {|
  sc_parse := λ _, inl cfg0;
  sc_keypair := inl (inl "0xff93");
  sc_blockstore := None;
  sc_latest := inl 9;
  sc_connect := connect;
  sc_code := code;
  sc_bridge := None;
  sc_erc20 := None;
  sc_listen := None;
  sc_listener_start := listener_start;
  sc_writer_start := None;
  sc_listener_stop := None;
  sc_writer_stop := None;
|}.

(** Every call succeeds and every address has code. *)
Definition happy : Scenario := scenario (λ _, inl code0) None None.

(** Nothing is deployed at the ERC20 handler address. *)
Definition erc20_missing : Scenario :=
  scenario (λ a, if (a =? 2)%N then inl [] else inl code0) None None.

(** The node refuses the connection. *)
Definition refused : Scenario :=
  scenario (λ _, inl code0) (Some (TransientRPCError "connection refused")) None.

(** The Listener cannot start. *)
Definition listener_down : Scenario :=
  scenario (λ _, inl code0) None (Some (TransientRPCError "node unreachable")).

Definition conn0 : Connection (scenarioEnv happy) := true.

Definition chain0 : Chain (scenarioEnv happy) :=
  {| cfg := chainCfg0; conn := conn0; listener := 1; writer := 1 |}.

Definition chain_down : Chain (scenarioEnv listener_down) :=
  Build_Chain (scenarioEnv listener_down) chainCfg0 true 0 0.

(** The scenarios in which the configuration is parsed and the key pair is
    loaded, but for the answers of the blockstore and of the starts and stops
    of the Writer and the Listener. *)
Definition scenario_of (blockstore : option error) (latest : Z + error)
    (writer_start listener_stop writer_stop : option error) : Scenario := {|
  sc_parse := λ _, inl cfg0;
  sc_keypair := inl (inl "0xff93");
  sc_blockstore := blockstore;
  sc_latest := latest;
  sc_connect := None;
  sc_code := λ _, inl code0;
  sc_bridge := None;
  sc_erc20 := None;
  sc_listen := None;
  sc_listener_start := None;
  sc_writer_start := writer_start;
  sc_listener_stop := listener_stop;
  sc_writer_stop := writer_stop;
|}.

(** The blockstore cannot be opened. *)
Definition blockstore_locked : Scenario :=
  scenario_of (Some (OtherError "blockstore locked")) (inl 9) None None None.

(** The blockstore opens but its latest block cannot be read. *)
Definition latest_unreadable : Scenario :=
  scenario_of None (inr (OtherError "unreadable block file")) None None None.

(** The Writer cannot start. *)
Definition writer_down : Scenario :=
  scenario_of None (inl 9) (Some (OtherError "writer cannot start")) None None.

(** The Listener cannot stop. *)
Definition listener_stuck : Scenario :=
  scenario_of None (inl 9) None (Some (OtherError "listener cannot stop")) None.

(** The Writer cannot stop. *)
Definition writer_stuck : Scenario :=
  scenario_of None (inl 9) None None (Some (OtherError "writer cannot stop")).

(** A chain of the scenario [s] whose Listener and Writer are started. *)
Definition chain_in (s : Scenario) : Chain (scenarioEnv s) :=
  Build_Chain (scenarioEnv s) chainCfg0 true 1 1.

(** The registrations among the calls of a trace. *)
Definition isRouterListen {E} (ev : Event E) : bool :=
  match ev with ERouterListen _ _ _ => true | _ => false end.

(** The creations of a contract binding among the calls of a trace. *)
Definition isBinding {E} (ev : Event E) : bool :=
  match ev with ENewBridge _ | ENewERC20Handler _ => true | _ => false end.

(** The calls that start, stop or register a Listener or a Writer, or close
    a Connection, among the calls of a trace. *)
Definition isLifecycle {E} (ev : Event E) : bool :=
  match ev with
  | ERouterListen _ _ _ | EListenerSetRouter _ _ | EListenerStart _
  | EWriterStart _ | EWriterLogDebug _ _ | EListenerStop _ | EWriterStop _
  | EConnClose _ => true
  | _ => false
  end.

(** The address holds no deployed bytecode, whichever client asks. *)
Definition no_bytecode (E : Env) (addr : Address) : Prop :=
  ∀ cl, CodeAt E cl addr = inl [].

(** ** Statements about traces *)

(** [wp m Q tr]: running [m] from the trace [tr] ends with an answer and a
    trace that satisfy [Q]. *)
Definition wp {E A} (m : M E A) (Q : A → list (Entry E) → Prop)
    (tr : list (Entry E)) : Prop :=
  Q (m tr).1 (m tr).2.

(** The entries of a trace before its first creation of a binding, and
    whether it has one. *)
Fixpoint until_binding {E} (tr : list (Entry E)) : list (Entry E) :=
  match tr with
  | [] => []
  | en :: tr' => if isBinding en.1 then [] else en :: until_binding tr'
  end.

Definition has_binding {E} (tr : list (Entry E)) : bool :=
  existsb (λ en, isBinding en.1) tr.

(** The calls of [InitializeChain] when every step succeeds. *)
Definition init_calls {E} (chainCfg : ChainConfig) (cfg : Config)
  : list (Event E) :=
  [EParseChainConfig chainCfg; EKeypairFromAddress (from cfg); ENewBlockstore]
  ++ (if freshStart cfg then [] else [ETryLoadLatestBlock])
  ++ [ENewConnection; EConnect;
      EEnsureHasBytecode (bridgeContract cfg);
      EEnsureHasBytecode (erc20HandlerContract cfg);
      EEnsureHasBytecode (genericHandlerContract cfg);
      ENewBridge (bridgeContract cfg);
      ENewERC20Handler (erc20HandlerContract cfg);
      ENewListener; EListenerSetContracts; ENewWriter; EWriterSetContract].

(** * The Listener and its test *)

(** ** Messages and the mock Router of the test file *)

(** [msg.TransferType]; the test names [FungibleTransfer], the specification
    lists the other two. *)
Inductive TransferType := FungibleTransfer | NonFungibleTransfer | GenericTransfer.

(** An element of [Metadata], a slice of [interface{}]: the test stores
    addresses and byte slices. *)
Inductive MetaValue :=
| MAddress (a : Address)
| MBytes (bs : list Byte.byte).

(** [msg.Message]; [DepositNonce] is a [uint32], [Type_] is the field [Type]. *)
Record Message := {
  Source : ChainId;
  Destination : ChainId;
  Type_ : TransferType;
  DepositNonce : N;
  Metadata : list MetaValue;
}.

Global Instance TransferType_eq_dec : EqDecision TransferType.
Proof. solve_decision. Defined.

Global Instance byte_eq_dec : EqDecision Byte.byte.
Proof. intros x y. destruct (Byte.byte_eq_dec x y); [by left|by right]. Defined.

Global Instance MetaValue_eq_dec : EqDecision MetaValue.
Proof. solve_decision. Defined.

(** [reflect.DeepEqual] on two Messages. *)
Global Instance Message_eq_dec : EqDecision Message.
Proof. solve_decision. Defined.

(** The messages a Listener hands over go through [Send]. *)
Class RouterI (R : Type) := Send : R → Message → R * option error.

(** [MockRouter]: a channel of Messages, here the Messages sent and not yet
    received, oldest first. *)
Record MockRouter := { msgs : list Message }.

(** [MockRouter.Send]: the Message goes into the channel, the error is nil. *)
Global Instance MockRouter_Send : RouterI MockRouter :=
  λ r message, ({| msgs := msgs r ++ [message] |}, None).

(** [big.Int.Bytes]: the absolute value, big-endian, without leading zeros. *)
Fixpoint be_bytes (fuel : nat) (n : N) (acc : list Byte.byte) : list Byte.byte :=
  match fuel with
  | O => acc
  | S fuel' =>
      if (n =? 0)%N then acc
      else be_bytes fuel' (n / 256)%N
             (default Byte.x00 (Byte.of_N (n mod 256)%N) :: acc)
  end.

Definition Bytes (x : Z) : list Byte.byte :=
  be_bytes (N.to_nat (N.size (Z.abs_N x))) (Z.abs_N x) [].

(** [big.Int.SetBytes]: the number a big-endian byte slice stands for. *)
Definition SetBytes (buf : list Byte.byte) : Z :=
  foldl (λ acc b, acc * 256 + Z.of_N (Byte.to_N b)) 0 buf.

(** [big.Int.Uint64], and the conversion [msg.ChainId(...)] of a [uint64] to
    a chain identifier of [width] bits (the declaration of [ChainId] is in the
    message package). *)
Definition Uint64 (x : Z) : N := (Z.abs_N x mod 2 ^ 64)%N.

Definition to_ChainId (width : N) (x : N) : ChainId := (x mod 2 ^ width)%N.

(** The outcome of a test: it passes, or [t.Fatal] stops it. *)
Inductive Verdict := Pass | Fatal (why : string).

(** [TestListener_depositEvent]: the values of the test. *)
Definition amount : Z := 10.
Definition destId : Z := 1.

Definition expectedMessage (width : N) (bob handler : Address) : Message := {|
  Source := to_ChainId width 0;
  Destination := to_ChainId width (Uint64 destId);
  Type_ := FungibleTransfer;
  DepositNonce := 1;
  Metadata := [MAddress bob; MBytes (Bytes amount); MAddress handler];
|}.

(** The [select] that ends [TestListener_depositEvent]: the first Message of
    the channel is compared with the expected one; an empty channel when the
    time is over is the timeout. *)
Definition verifyMessage (expected : Message) (router : MockRouter) : Verdict :=
  match msgs router with
  | m :: _ =>
      if decide (expected = m) then Pass else Fatal "Unexpected message"
  | [] => Fatal "test timed out"
  end.

(** ** The Listener *)

Module ListenerModel.

(** The Listener ([listener.go]) is not among the source files; this module
    follows sections 3, 4.1 and 6 of the specification.  The fields [conn],
    [cfg], [bridgeContract] and the calls [NewListener], [SetContracts],
    [SetRouter], [Start] and [Stop] are those the test file uses. *)

(** Modelled from the spec: the decoded deposit event of section 6, which
    the contract bindings (absent) produce: destination chain, deposit nonce,
    and the payload as its kind selects it: an ERC20 deposit carries the
    recipient and the amount, another deposit its transfer type and metadata. *)
Inductive DepositEvent :=
| Erc20Deposit (destination : ChainId) (depositNonce : N)
    (recipient : Address) (amount : Z)
| OtherDeposit (destination : ChainId) (depositNonce : N)
    (type : TransferType) (metadata : list MetaValue).

(** Modelled from the spec: a raw log of the bridge contract, as the
    contract binding decodes it (section 4.1): an event, malformed data
    (skipped), or data that shows a handler mismatch (fatal). *)
Inductive Log :=
| Decodes (ev : DepositEvent)
| Malformed
| Mismatch.

Definition ev_nonce (ev : DepositEvent) : N :=
  match ev with
  | Erc20Deposit _ n _ _ => n
  | OtherDeposit _ n _ _ => n
  end.

(** Modelled from the spec: what the Listener (absent) is configured with:
    the fields of [Config] that the test file names, and the confirmation
    depth, the chunk size and the retries of section 4.1. *)
Record Config := {
  id : ChainId;
  contract : Address;
  erc20HandlerContract : Address;
  startBlock : Z;
  freshStart : bool;
  confirmations : Z;
  chunkSize : positive;
  maxRetries : nat;
}.

(** Modelled from the spec: the Connection (absent), as far as the Listener
    sees it (section 4.3): the logs of the finalized blocks, by height, in
    log-index order.  Whether the node answers is not a property of the
    Connection: it is what a connectivity check observes when it is made. *)
Record Connection := {
  logs : Z → list Log;
}.

Inductive Phase := Idle | Polling | Stopped.

(** Modelled from the spec: the state of the Listener (absent), for Routers
    of type [R]: the scan cursor, the stored checkpoint, the phase of the
    state machine of section 4.1; [router] is nil until [SetRouter]. *)
Record Listener (R : Type) := {
  cfg : Config;
  conn : Connection;
  bridgeContract : option Address;
  erc20Handler : option Address;
  router : option R;
  phase : Phase;
  cursor : Z;
  checkpoint : option Z;
  fatal : option error;
}.

Arguments cfg {R}.
Arguments conn {R}.
Arguments bridgeContract {R}.
Arguments erc20Handler {R}.
Arguments router {R}.
Arguments phase {R}.
Arguments cursor {R}.
Arguments checkpoint {R}.
Arguments fatal {R}.

Section WithRouter.
Context {R : Type} `{RouterI R}.

(** Modelled from the spec: [NewListener] (absent); [stored] is what the
    store of checkpoints holds for this chain and relayer; the logger is
    left out. *)
Definition NewListener (conn : Connection) (cfg : Config) (stored : option Z)
  : Listener R :=
  {| cfg := cfg; conn := conn; bridgeContract := None; erc20Handler := None;
     router := None; phase := Idle; cursor := startBlock cfg;
     checkpoint := stored; fatal := None |}.

Definition SetContracts (l : Listener R) (bridge erc20 : Address) : Listener R :=
  {| cfg := cfg l; conn := conn l; bridgeContract := Some bridge;
     erc20Handler := Some erc20; router := router l; phase := phase l;
     cursor := cursor l; checkpoint := checkpoint l; fatal := fatal l |}.

Definition SetRouter (l : Listener R) (r : R) : Listener R :=
  {| cfg := cfg l; conn := conn l; bridgeContract := bridgeContract l;
     erc20Handler := erc20Handler l; router := Some r; phase := phase l;
     cursor := cursor l; checkpoint := checkpoint l; fatal := fatal l |}.

(** The scan cursor at [Start]: the stored checkpoint, or the configured
    start height on a fresh start (and when nothing is stored). *)
Definition seed (l : Listener R) : Z :=
  if freshStart (cfg l) then startBlock (cfg l)
  else default (startBlock (cfg l)) (checkpoint l).

(** Modelled from the spec: [Listener.Start] (absent), section 4.1, on an
    idle Listener, the state the state machine of that section starts from:
    the contract bindings must be set ([ConfigurationError] if not) and the
    node must answer the connectivity check of this call ([answers]); then
    the cursor is seeded and the polling loop is launched.  The state machine
    has no transition for a [Start] on a Listener that is polling or stopped
    ([Stopped] is terminal): the specification does not say what such a call
    returns, and it has no result here ([None]). *)
Definition Start (answers : bool) (l : Listener R)
  : option (Listener R * option error) :=
  match phase l with
  | Idle =>
      Some
        match bridgeContract l, erc20Handler l with
        | Some _, Some _ =>
            if answers then
              ({| cfg := cfg l; conn := conn l;
                  bridgeContract := bridgeContract l;
                  erc20Handler := erc20Handler l; router := router l;
                  phase := Polling; cursor := seed l;
                  checkpoint := checkpoint l; fatal := fatal l |}, None)
            else (l, Some (TransientRPCError "connectivity check failed"))
        | _, _ => (l, Some (ConfigurationError "contract bindings not set"))
        end
  | Polling | Stopped => None
  end.

(** Modelled from the spec: [Listener.Stop] (absent), section 4.1: the loop
    exits; stopping twice is stopping once. *)
Definition Stop (l : Listener R) : Listener R * option error :=
  ({| cfg := cfg l; conn := conn l; bridgeContract := bridgeContract l;
      erc20Handler := erc20Handler l; router := router l; phase := Stopped;
      cursor := cursor l; checkpoint := checkpoint l; fatal := fatal l |}, None).

(** Modelled from the spec: the Message the Listener (absent) builds from a
    deposit event: section 3 for the fields, the happy-path scenario of
    section 8 for the metadata of a fungible transfer (recipient, amount,
    handler address). *)
Definition toMessage (c : Config) (ev : DepositEvent) : Message :=
  match ev with
  | Erc20Deposit dest nonce recipient amount =>
      {| Source := id c; Destination := dest; Type_ := FungibleTransfer;
         DepositNonce := nonce;
         Metadata := [MAddress recipient; MBytes (Bytes amount);
                      MAddress (erc20HandlerContract c)] |}
  | OtherDeposit dest nonce type metadata =>
      {| Source := id c; Destination := dest; Type_ := type;
         DepositNonce := nonce; Metadata := metadata |}
  end.

(** The logs of the block range [a..b], in block order, then log-index
    order. *)
Definition FetchLogs (cn : Connection) (a b : Z) : list Log :=
  concat (logs cn <$> seqZ a (b - a + 1)).

(** Modelled from the spec: the Messages of a list of logs, in order
    (section 4.1), up to the first handler mismatch; [false] reports the
    mismatch. *)
Fixpoint translate (c : Config) (ls : list Log) : list Message * bool :=
  match ls with
  | [] => ([], true)
  | Decodes ev :: ls' =>
      let '(ms, ok) := translate c ls' in (toMessage c ev :: ms, ok)
  | Malformed :: ls' => translate c ls'
  | Mismatch :: _ => ([], false)
  end.

(** Handing a Message to the Router; an error of [Send] is logged and the
    Message dropped (section 4.4). *)
Definition handOff (r : R) (m : Message) : R := (Send r m).1.

Definition stopWith (l : Listener R) (r : option R) (err : error) : Listener R :=
  {| cfg := cfg l; conn := conn l; bridgeContract := bridgeContract l;
     erc20Handler := erc20Handler l; router := r; phase := Stopped;
     cursor := cursor l; checkpoint := checkpoint l; fatal := Some err |}.

(** Modelled from the spec: one chunk [a..b] of the scan of the Listener
    (absent), section 4.1: the logs are fetched, after [failures] transient
    failures; more failures than retries are fatal.  The Messages are handed
    over in order (with a nil Router the first hand-over ends the loop); then
    the checkpoint is written and the cursor advances. *)
Definition scanChunk (failures : nat) (a b : Z) (l : Listener R)
  : Listener R * list Message :=
  if decide (maxRetries (cfg l) < failures)%nat then
    (stopWith l (router l) (TransientRPCError "retries exhausted"), [])
  else
    let '(ms, ok) := translate (cfg l) (FetchLogs (conn l) a b) in
    match ms, router l with
    | _ :: _, None => (stopWith l None (ConfigurationError "router not set"), [])
    | _, r =>
        let r := (λ r, foldl handOff r ms) <$> r in
        if ok then
          ({| cfg := cfg l; conn := conn l; bridgeContract := bridgeContract l;
              erc20Handler := erc20Handler l; router := r; phase := phase l;
              cursor := b + 1; checkpoint := Some b; fatal := fatal l |}, ms)
        else (stopWith l r (ConfigurationError "handler mismatch"), ms)
    end.

(** Modelled from the spec: the scan of the range [cursor..target] in chunks
    of at most [chunkSize] blocks (section 4.1); [failures] lists the
    transient failures of the successive fetches. *)
Fixpoint scan (fuel : nat) (target : Z) (failures : list nat) (l : Listener R)
  : Listener R * list Message :=
  match fuel with
  | O => (l, [])
  | S fuel' =>
      match phase l with
      | Polling =>
          if decide (cursor l ≤ target) then
            let a := cursor l in
            let b := Z.min (a + Z.pos (chunkSize (cfg l)) - 1) target in
            let '(l1, ms1) := scanChunk (default O (head failures)) a b l in
            let '(l2, ms2) := scan fuel' target (tail failures) l1 in
            (l2, ms1 ++ ms2)
          else (l, [])
      | _ => (l, [])
      end
  end.

(** What one cycle of the loop observes: the height of the chain head, and
    the transient failures its fetches will meet. *)
Record Observation := {
  obs_head : Z;
  obs_failures : list nat;
}.

(** Modelled from the spec: one cycle of the polling loop of the Listener
    (absent), section 4.1: nothing to do while the head is not
    [confirmations] blocks past the cursor; otherwise the range up to
    [head - confirmations] is scanned. *)
Definition cycle (o : Observation) (l : Listener R) : Listener R * list Message :=
  match phase l with
  | Polling =>
      let target := obs_head o - confirmations (cfg l) in
      if decide (target < cursor l) then (l, [])
      else scan (Z.to_nat (target - cursor l + 1)) target (obs_failures o) l
  | _ => (l, [])
  end.

(** Modelled from the spec: a run of the polling loop of the Listener
    (absent): one cycle per observation; the Messages produced, in the order
    produced. *)
Fixpoint poll (os : list Observation) (l : Listener R)
  : Listener R * list Message :=
  match os with
  | [] => (l, [])
  | o :: os' =>
      let '(l1, ms1) := cycle o l in
      let '(l2, ms2) := poll os' l1 in
      (l2, ms1 ++ ms2)
  end.

End WithRouter.

End ListenerModel.

(** The chain of the happy-path scenario: one ERC20 deposit for chain 1, with
    deposit nonce 1, of 10 to Bob, in block [b0]; no other log. *)
Definition depositLogs (bob : Address) (b0 : Z) : Z → list ListenerModel.Log :=
  λ b, if b =? b0
       then [ListenerModel.Decodes (ListenerModel.Erc20Deposit 1%N 1%N bob 10)]
       else [].

(** ** The tests of the Listener *)

(** [DeployedContracts], the fields the test file reads. *)
Record DeployedContracts := {
  BridgeAddress : Address;
  ERC20HandlerAddress : Address;
}.

(** What the helpers of the tests answer: the local Connection; for an
    address and the client a binding is created on, the error of creating
    the Bridge binding and the ERC20 handler binding there (nil: the binding
    is created); what the node answers to the successive connectivity checks
    of a test; the check of the bridge contract at an address on a
    Connection; the error of [newTransactOpts], the ERC20 contract that
    [deployMintApproveErc20] deploys and the error of [createErc20Deposit]. *)
Record TestSetup := {
  newLocalConnection : ListenerModel.Connection;
  bridgeBinding : Address → ListenerModel.Connection → option error;
  erc20HandlerBinding : Address → ListenerModel.Connection → option error;
  connectivity : nat → bool;
  checkBridgeContract : ListenerModel.Connection → Address → option error;
  newTransactOpts : option error;
  deployMintApproveErc20 : Address;
  createErc20Deposit : option error;
}.

(** The collaborators of [chain.go] as the tests meet them: a Connection is
    a Connection of the Listener and is its own client, and a contract
    binding is the address it is bound to.  The tests reach [chain.go]
    through [createBridgeContract] and [createErc20HandlerContract] only;
    the other collaborators are never called by them and answer nothing. *)
Definition testEnv (ts : TestSetup) : Env := {|
  Keypair := unit;
  OtherKeypair := unit;
  Blockstore := unit;
  Logger := unit;
  Client := ListenerModel.Connection;
  Connection := ListenerModel.Connection;
  Bridge := Address;
  ERC20Handler := Address;
  Listener := unit;
  Writer := unit;
  Router := unit;
  parseChainConfig := λ _, inr (OtherError "not called by the tests");
  KeypairFromAddress := λ _ _ _ _, inr (OtherError "not called by the tests");
  Keypair_Address := λ _, EmptyString;
  NewBlockstore := λ _ _ _, inr (OtherError "not called by the tests");
  TryLoadLatestBlock := λ _, inr (OtherError "not called by the tests");
  NewConnection := λ _ _ _, newLocalConnection ts;
  Connect := λ c, (c, None);
  conn_conn := λ c, c;
  CodeAt := λ _ _, inr (OtherError "not called by the tests");
  NewBridge := λ addr client,
    match bridgeBinding ts addr client with
    | Some err => inr err
    | None => inl addr
    end;
  NewERC20Handler := λ addr client,
    match erc20HandlerBinding ts addr client with
    | Some err => inr err
    | None => inl addr
    end;
  NewListener := λ _ _ _ _, ();
  Listener_SetContracts := λ l _ _, l;
  NewWriter := λ _ _ _, ();
  Writer_SetContract := λ w _, w;
  Router_Listen := λ _ _ _, None;
  Listener_SetRouter := λ l _, l;
  Listener_Start := λ l, (l, None);
  Writer_Start := λ w, (w, None);
  Writer_log_Debug := λ _ _, ();
  Listener_Stop := λ l, (l, None);
  Writer_Stop := λ w, (w, None);
  Connection_Close := λ c, c;
|}.

(** What a call of [chain.go] answers to a test; the tests state nothing
    about the order of their calls, and the trace of the call is dropped. *)
Definition answer {E A} (m : M E A) : A := (run m).1.

(** [createTestListener]: the Listener and the mock Router it returns, or the
    reason of [t.Fatal].  The bindings are created by [createBridgeContract]
    and [createErc20HandlerContract] of [chain.go], at the addresses of the
    copy of the configuration, on the local Connection.  The Listener is new
    when it is started, so that [Start] has a result.  The Listener and the
    test share the mock Router through a pointer: its channel is read where
    the Listener keeps it. *)
Definition createTestListener (ts : TestSetup) (config : ListenerModel.Config)
    (contracts : DeployedContracts)
  : ListenerModel.Listener MockRouter * MockRouter + string :=
  let newConfig := {|
    ListenerModel.id := ListenerModel.id config;
    ListenerModel.contract := BridgeAddress contracts;
    ListenerModel.erc20HandlerContract := ERC20HandlerAddress contracts;
    ListenerModel.startBlock := ListenerModel.startBlock config;
    ListenerModel.freshStart := ListenerModel.freshStart config;
    ListenerModel.confirmations := ListenerModel.confirmations config;
    ListenerModel.chunkSize := ListenerModel.chunkSize config;
    ListenerModel.maxRetries := ListenerModel.maxRetries config |} in
  let conn := newLocalConnection ts in
  match
    answer (createBridgeContract (testEnv ts)
              (ListenerModel.contract newConfig) conn)
  with
  | inr _ => inr "createBridgeContract"
  | inl bridgeContract =>
      match
        answer (createErc20HandlerContract (testEnv ts)
                  (ListenerModel.erc20HandlerContract newConfig) conn)
      with
      | inr _ => inr "createErc20HandlerContract"
      | inl erc20HandlerContract =>
          let router := {| msgs := [] |} in
          let listener := ListenerModel.NewListener conn newConfig None in
          let listener :=
            ListenerModel.SetContracts listener bridgeContract
              erc20HandlerContract in
          let listener := ListenerModel.SetRouter listener router in
          match ListenerModel.Start (connectivity ts 0%nat) listener with
          | Some (listener, None) =>
              match
                checkBridgeContract ts conn (ListenerModel.contract newConfig)
              with
              | Some _ => inr "checkBridgeContract"
              | None => inl (listener, router)
              end
          | _ => inr "listener.Start"
          end
      end
  end.

(** [TestListener_start_stop]: the test starts the Listener that
    [createTestListener] has started already.  Its outcome is the outcome of
    that second [Start]; where [Start] has no result, neither has the test. *)
Definition TestListener_start_stop (ts : TestSetup)
    (config : ListenerModel.Config) (contracts : DeployedContracts)
  : option Verdict :=
  match createTestListener ts config contracts with
  | inr why => Some (Fatal why)
  | inl (l, _) =>
      '(l, err) ← ListenerModel.Start (connectivity ts 1%nat) l;
      match err with
      | Some _ => Some (Fatal "l.Start")
      | None =>
          let '(l, err) := ListenerModel.Stop l in
          match err with
          | Some _ => Some (Fatal "l.Stop")
          | None => Some Pass
          end
      end
  end.

(** [TestListener_depositEvent].  The deposit that [createErc20Deposit]
    makes is a log of the chain of the local Connection; [os] is what the
    polling loop of the Listener observes until the timeout of the test. *)
Definition TestListener_depositEvent (ts : TestSetup)
    (config : ListenerModel.Config) (contracts : DeployedContracts)
    (width : N) (bob : Address) (os : list ListenerModel.Observation) : Verdict :=
  match createTestListener ts config contracts with
  | inr why => Fatal why
  | inl (l, router) =>
      match newTransactOpts ts with
      | Some _ => Fatal "newTransactOpts"
      | None =>
          let expected :=
            expectedMessage width bob
              (ListenerModel.erc20HandlerContract (ListenerModel.cfg l)) in
          let erc20Contract := deployMintApproveErc20 ts in
          match createErc20Deposit ts with
          | Some _ => Fatal "createErc20Deposit"
          | None =>
              let l := (ListenerModel.poll os l).1 in
              verifyMessage expected (default router (ListenerModel.router l))
          end
      end
  end.

(** The local setup of the tests, with the deposit in block 4. *)
Definition contracts0 : DeployedContracts :=
  {| BridgeAddress := 1%N; ERC20HandlerAddress := 2%N |}.

Definition setup0 : TestSetup := {|
  newLocalConnection := {| ListenerModel.logs := depositLogs 7%N 4 |};
  bridgeBinding := λ _ _, None;
  erc20HandlerBinding := λ _ _, None;
  connectivity := λ _, true;
  checkBridgeContract := λ _ _, None;
  newTransactOpts := None;
  deployMintApproveErc20 := 9%N;
  createErc20Deposit := None;
|}.

(** ** Statements about runs of the Listener *)

(** The decoded events among a list of logs. *)
Definition events (ls : list ListenerModel.Log) : list ListenerModel.DepositEvent :=
  omap (λ lg, match lg with ListenerModel.Decodes ev => Some ev | _ => None end) ls.

(** The deposit nonces the bridge contract emitted are a strictly increasing
    sequence along the chain: inside a block in log-index order, and from a
    block to a later block. *)
Definition monotone_nonces (cn : ListenerModel.Connection) : Prop :=
  (∀ b, StronglySorted N.lt
          (ListenerModel.ev_nonce <$> events (ListenerModel.logs cn b)))
  ∧ (∀ b1 b2 ev1 ev2, b1 < b2 →
       ev1 ∈ events (ListenerModel.logs cn b1) →
       ev2 ∈ events (ListenerModel.logs cn b2) →
       (ListenerModel.ev_nonce ev1 < ListenerModel.ev_nonce ev2)%N).

(** From the Listener [l] to the Listener [l'], the Messages [ms] were
    produced: the Connection and the configuration are the same, the cursor
    did not move back, the Router received [ms] in order, and [ms] are the
    Messages of the logs from the cursor of [l]: of all the logs below the
    cursor of [l'], or, when the Listener stopped on a handler mismatch, of
    those before the mismatch. *)
Definition Scanned {R} `{RouterI R} (l l' : ListenerModel.Listener R)
    (ms : list Message) : Prop :=
  ListenerModel.conn l' = ListenerModel.conn l ∧
  ListenerModel.cfg l' = ListenerModel.cfg l ∧
  ListenerModel.cursor l ≤ ListenerModel.cursor l' ∧
  ListenerModel.router l'
    = (λ r, foldl ListenerModel.handOff r ms) <$> ListenerModel.router l ∧
  (ListenerModel.translate (ListenerModel.cfg l)
     (ListenerModel.FetchLogs (ListenerModel.conn l) (ListenerModel.cursor l)
        (ListenerModel.cursor l' - 1)) = (ms, true)
   ∨ (ListenerModel.phase l' = ListenerModel.Stopped ∧
      ∃ hi, ListenerModel.translate (ListenerModel.cfg l)
              (ListenerModel.FetchLogs (ListenerModel.conn l)
                 (ListenerModel.cursor l) hi) = (ms, false))).

(** No range of blocks of the chain of the Listener shows a handler
    mismatch. *)
Definition no_mismatch {R} (l : ListenerModel.Listener R) : Prop :=
  ∀ a b, (ListenerModel.translate (ListenerModel.cfg l)
            (ListenerModel.FetchLogs (ListenerModel.conn l) a b)).2 = true.

(** A cycle none of whose fetches exhausts the retries of [c]. *)
Definition benign (c : ListenerModel.Config) (o : ListenerModel.Observation) : Prop :=
  Forall (λ f, (f ≤ ListenerModel.maxRetries c)%nat) (ListenerModel.obs_failures o).

(** A chain with two deposits in block 3 and one in block 4, observed with
    two confirmations, and a Listener on it. *)
Definition chain3 : ListenerModel.Connection := {|
  ListenerModel.logs := λ b,
    if b =? 3 then
      [ListenerModel.Decodes (ListenerModel.Erc20Deposit 1%N 1%N 7%N 10);
       ListenerModel.Malformed;
       ListenerModel.Decodes (ListenerModel.OtherDeposit 2%N 2%N GenericTransfer [])]
    else if b =? 4 then
      [ListenerModel.Decodes (ListenerModel.Erc20Deposit 1%N 3%N 7%N 20)]
    else [];
|}.

Definition listenerCfg0 : ListenerModel.Config := {|
  ListenerModel.id := 0%N;
  ListenerModel.contract := 1%N;
  ListenerModel.erc20HandlerContract := 2%N;
  ListenerModel.startBlock := 0;
  ListenerModel.freshStart := true;
  ListenerModel.confirmations := 2;
  ListenerModel.chunkSize := 3%positive;
  ListenerModel.maxRetries := 1;
|}.

Definition listener0 (cn : ListenerModel.Connection)
  : ListenerModel.Listener MockRouter :=
  ListenerModel.SetRouter
    (ListenerModel.SetContracts
       (ListenerModel.NewListener cn listenerCfg0 None) 1%N 2%N)
    {| msgs := [] |}.

(** That Listener once started, the node answering. *)
Definition started0 (cn : ListenerModel.Connection)
  : ListenerModel.Listener MockRouter :=
  default (listener0 cn) (fst <$> ListenerModel.Start true (listener0 cn)).

Definition observe (h : Z) : ListenerModel.Observation :=
  {| ListenerModel.obs_head := h; ListenerModel.obs_failures := [] |}.

(** * Properties *)

(** Unfolding the monad down to pairs of an answer and a trace. *)
Ltac unfold_go :=
  unfold run, call, err_of_pair, err_of_sum, err_of_opt, no_err, calls;
  repeat (unfold mbind, M_bind, mret, M_ret; simpl).

Lemma Cmp_gt (x y : Z) : (Cmp x y =? 1) = true ↔ y < x.
Proof.
  unfold Cmp. destruct (Z.compare_spec x y); simpl; split; intros; try lia; done.
Qed.

Lemma Cmp_not_gt (x y : Z) : (Cmp x y =? 1) = false ↔ x ≤ y.
Proof.
  unfold Cmp. destruct (Z.compare_spec x y); simpl; split; intros; try lia; done.
Qed.

(** ** The embedding on concrete inputs *)

Example Cmp_values : Cmp 9 5 = 1 ∧ Cmp 5 5 = 0 ∧ Cmp 5 9 = -1.
Proof. done. Qed.

Example InitializeChain_happy :
  calls (run (InitializeChain (scenarioEnv happy) chainCfg0 ())).2
  = init_calls chainCfg0 cfg0.
Proof. reflexivity. Qed.

Example InitializeChain_erc20_missing :
  (run (InitializeChain (scenarioEnv erc20_missing) chainCfg0 ())).1
  = (None, Some (ConfigurationError "no bytecode found")).
Proof. reflexivity. Qed.

Example Start_listener_down :
  calls (run (Start (scenarioEnv listener_down) chain_down)).2
  = [EListenerStart (listener chain_down)].
Proof. reflexivity. Qed.

Example Bytes_values :
  Bytes 10 = [Byte.x0a] ∧ Bytes 256 = [Byte.x01; Byte.x00] ∧ Bytes 0 = [].
Proof. done. Qed.

Example poll_chain3 :
  DepositNonce <$>
    (ListenerModel.poll [observe 5; observe 9] (started0 chain3)).2
  = [1; 2; 3]%N.
Proof. reflexivity. Qed.

Example createTestListener_deployed :
  ∃ l r,
    createTestListener setup0 listenerCfg0
      {| BridgeAddress := 5%N; ERC20HandlerAddress := 6%N |} = inl (l, r)
    ∧ ListenerModel.bridgeContract l = Some 5%N
    ∧ ListenerModel.erc20Handler l = Some 6%N
    ∧ ListenerModel.contract (ListenerModel.cfg l) = 5%N
    ∧ ListenerModel.phase l = ListenerModel.Polling.
Proof. by eexists _, _. Qed.

Example TestListener_start_stop_setup0 :
  TestListener_start_stop setup0 listenerCfg0 contracts0 = None.
Proof. reflexivity. Qed.

Example depositEvent_unconfirmed :
  TestListener_depositEvent setup0 listenerCfg0 contracts0 8 7%N
    [observe 3; observe 5]
  = Fatal "test timed out".
Proof. reflexivity. Qed.

(** ** [setupBlockstore] *)

(** Every path of [setupBlockstore], as an equation. *)
Lemma setupBlockstore_unfold (E : Env) (cfg : Config) (kp : option (Keypair E))
    (tr : list (Entry E)) :
  setupBlockstore E cfg kp tr =
    let r := NewBlockstore E (blockstorePath cfg) (id cfg) (Keypair_Address E kp) in
    let tr1 := tr ++ [(ENewBlockstore, err_of_sum r)] in
    match r with
    | inr err => (cfg, (None, Some err), tr1)
    | inl bs =>
        if freshStart cfg then (cfg, (Some bs, None), tr1)
        else
          let r2 := TryLoadLatestBlock E bs in
          let tr2 := tr1 ++ [(ETryLoadLatestBlock, err_of_sum r2)] in
          match r2 with
          | inr err => (cfg, (None, Some err), tr2)
          | inl latest =>
              if bool_decide (startBlock cfg < latest)
              then (set_startBlock cfg latest, (Some bs, None), tr2)
              else (cfg, (Some bs, None), tr2)
          end
    end.
Proof.
  unfold setupBlockstore. unfold_go.
  destruct (NewBlockstore _ _ _ _) as [bs|err]; [|done].
  destruct (freshStart cfg); simpl; [done|].
  destruct (TryLoadLatestBlock E bs) as [latest|err]; [|done].
  case_bool_decide as Hlt.
  - by rewrite (proj2 (Cmp_gt _ _) Hlt).
  - rewrite (proj2 (Cmp_not_gt latest (startBlock cfg))); [done | lia].
Qed.

(** C1.  With [freshStart] false, once the blockstore is opened and answers
    its latest block, [setupBlockstore] leaves [cfg.startBlock] at the maximum
    of the configured start height and the stored block: it replaces it by
    the stored block exactly when that block is strictly greater, and leaves
    the configuration as it is otherwise.  With [freshStart] true the
    configuration is left as it is and the blockstore is never asked for its
    latest block. *)
Theorem setupBlockstore_seeds_startBlock (E : Env) (cfg : Config)
    (kp : option (Keypair E)) (tr : list (Entry E)) :
  let out := setupBlockstore E cfg kp tr in
  (freshStart cfg = false →
   ∀ bs latest,
     NewBlockstore E (blockstorePath cfg) (id cfg) (Keypair_Address E kp) = inl bs →
     TryLoadLatestBlock E bs = inl latest →
     out.1.2 = (Some bs, None) ∧
     startBlock out.1.1 = Z.max (startBlock cfg) latest ∧
     (startBlock cfg < latest → out.1.1 = set_startBlock cfg latest) ∧
     (latest ≤ startBlock cfg → out.1.1 = cfg))
  ∧ (freshStart cfg = true →
     out.1.1 = cfg ∧ calls out.2 = calls tr ++ [ENewBlockstore]).
Proof.
  intros out. subst out. rewrite setupBlockstore_unfold. split.
  - intros Hfresh bs latest Hbs Hlatest. simpl. rewrite Hbs, Hfresh, Hlatest.
    case_bool_decide as Hlt; simpl; repeat split; try done; lia.
  - intros Hfresh. simpl.
    destruct (NewBlockstore _ _ _ _) as [bs|err]; rewrite ?Hfresh; simpl;
      unfold calls; rewrite fmap_app; done.
Qed.

Lemma setupBlockstore_seeds_startBlock_witness :
  startBlock (setupBlockstore (scenarioEnv happy) cfg0 (Some "0xff93") []).1.1
  = Z.max 5 9.
Proof.
  destruct (setupBlockstore_seeds_startBlock (scenarioEnv happy) cfg0
              (Some "0xff93") []) as [Hload _].
  destruct (Hload eq_refl (inl 9) 9 eq_refl eq_refl) as (_ & Hmax & _).
  exact Hmax.
Defined.

(** ** [Chain.Start] and [Chain.Stop] *)

(** The three paths of [Chain.Start]. *)
Lemma Start_unfold (E : Env) (c : Chain E) :
  run (Start E c) =
    let '(l, lerr) := Listener_Start E (listener c) in
    let c1 := {| cfg := cfg c; conn := conn c; listener := l; writer := writer c |} in
    let tr1 := [(EListenerStart (listener c), lerr)] in
    match lerr with
    | Some err => (c1, Some err, tr1)
    | None =>
        let '(w, werr) := Writer_Start E (writer c) in
        let c2 := {| cfg := cfg c; conn := conn c; listener := l; writer := w |} in
        let tr2 := tr1 ++ [(EWriterStart (writer c), werr)] in
        match werr with
        | Some err => (c2, Some err, tr2)
        | None =>
            (c2, None,
             tr2 ++ [(EWriterLogDebug w "Successfully started chain", None)])
        end
    end.
Proof.
  unfold Start. unfold_go.
  destruct (Listener_Start E (listener c)) as [l [err|]]; simpl; [done|].
  destruct (Writer_Start E (writer c)) as [w [err|]]; done.
Qed.

(** The three paths of [Chain.Stop]. *)
Lemma Stop_unfold (E : Env) (c : Chain E) :
  run (Stop E c) =
    let '(l, lerr) := Listener_Stop E (listener c) in
    let c1 := {| cfg := cfg c; conn := conn c; listener := l; writer := writer c |} in
    let tr1 := [(EListenerStop (listener c), lerr)] in
    match lerr with
    | Some err => (c1, Some err, tr1)
    | None =>
        let '(w, werr) := Writer_Stop E (writer c) in
        let c2 := {| cfg := cfg c; conn := conn c; listener := l; writer := w |} in
        let tr2 := tr1 ++ [(EWriterStop (writer c), werr)] in
        match werr with
        | Some err => (c2, Some err, tr2)
        | None =>
            ({| cfg := cfg c; conn := Connection_Close E (conn c);
                listener := l; writer := w |}, None,
             tr2 ++ [(EConnClose (conn c), None)])
        end
    end.
Proof.
  unfold Stop. unfold_go.
  destruct (Listener_Stop E (listener c)) as [l [err|]]; simpl; [done|].
  destruct (Writer_Stop E (writer c)) as [w [err|]]; done.
Qed.

(** Splitting a short list around one of its elements. *)
Lemma split_one {A} (x y : A) (pre post : list A) :
  [x] = pre ++ y :: post → pre = [] ∧ y = x ∧ post = [].
Proof.
  destruct pre as [|a pre]; simpl; intros H.
  - by injection H as <- <-.
  - injection H as <- H. by destruct pre.
Qed.

Lemma split_two {A} (x1 x2 y : A) (pre post : list A) :
  [x1; x2] = pre ++ y :: post →
  (pre = [] ∧ y = x1 ∧ post = [x2]) ∨ (pre = [x1] ∧ y = x2 ∧ post = []).
Proof.
  destruct pre as [|a pre]; simpl; intros H.
  - injection H as <- <-. by left.
  - injection H as <- H. right.
    apply split_one in H as (-> & -> & ->). done.
Qed.

Lemma split_three {A} (x1 x2 x3 y : A) (pre post : list A) :
  [x1; x2; x3] = pre ++ y :: post →
  (pre = [] ∧ y = x1 ∧ post = [x2; x3]) ∨
  (pre = [x1] ∧ y = x2 ∧ post = [x3]) ∨
  (pre = [x1; x2] ∧ y = x3 ∧ post = []).
Proof.
  destruct pre as [|a pre]; simpl; intros H.
  - injection H as <- <-. by left.
  - injection H as <- H. right.
    apply split_two in H as [(-> & -> & ->)|(-> & -> & ->)]; auto.
Qed.

(** C9.  [Chain.Start] starts the Listener, and starts it before the Writer:
    a call of [Writer.Start] comes after the call of [Listener.Start], which
    answered no error.  If [Listener.Start] answers an error, [Chain.Start]
    returns that error and [Writer.Start] is never called.  If it answers no
    error, the next call is [Writer.Start] on the Writer of the chain, it is
    the only call of [Writer.Start], and [Chain.Start] returns what it
    answers.  [Chain.Start] returns nil exactly when both calls were made and
    both answered no error. *)
Theorem Start_listener_then_writer (E : Env) (c : Chain E) :
  let out := run (Start E c) in
  (∃ o rest, out.2 = (EListenerStart (listener c), o) :: rest)
  ∧ (∀ pre w o post, out.2 = pre ++ (EWriterStart w, o) :: post →
       pre = [(EListenerStart (listener c), None)])
  ∧ (∀ err, (Listener_Start E (listener c)).2 = Some err →
       out.1.2 = Some err ∧ ∀ w, EWriterStart w ∉ calls out.2)
  ∧ (out.1.2 = None →
       (Listener_Start E (listener c)).2 = None ∧
       (Writer_Start E (writer c)).2 = None)
  ∧ ((Listener_Start E (listener c)).2 = None →
       (∃ rest,
          out.2 = (EListenerStart (listener c), None)
                  :: (EWriterStart (writer c), (Writer_Start E (writer c)).2)
                  :: rest ∧
          ∀ w, EWriterStart w ∉ calls rest) ∧
       out.1.2 = (Writer_Start E (writer c)).2)
  ∧ (out.1.2 = None ↔
     (EListenerStart (listener c), None) ∈ out.2 ∧
     (EWriterStart (writer c), None) ∈ out.2).
Proof.
  intros out. subst out. rewrite Start_unfold.
  destruct (Listener_Start E (listener c)) as [l [lerr|]]; simpl.
  - split; [eauto|]. split; [|split; [|split; [|split]]].
    + intros pre w o post H. apply split_one in H as (_ & H & _). done.
    + intros err [= <-]. split; [done|]. intros w Hin.
      apply list_elem_of_singleton in Hin. done.
    + done.
    + done.
    + split; [done|]. intros [Hin _].
      apply list_elem_of_singleton in Hin. done.
  - destruct (Writer_Start E (writer c)) as [w [werr|]]; simpl.
    + split; [eauto|]. split; [|split; [|split; [|split]]]; [|done..| |].
      * intros pre w' o post H.
        apply split_two in H as [(_ & H & _)|(-> & _ & _)]; done.
      * intros _. split; [|done]. exists []. split; [done|].
        intros w' Hin. by apply elem_of_nil in Hin.
      * split; [done|]. intros [_ Hin].
        repeat (apply elem_of_cons in Hin as [Hin|Hin]; [done|]).
        by apply elem_of_nil in Hin.
    + split; [eauto|]. split; [|split; [|split; [|split]]]; [|done..| |].
      * intros pre w' o post H.
        apply split_three in H as [(_ & H & _)|[(-> & _ & _)|(_ & H & _)]]; done.
      * intros _. split; [|done]. eexists. split; [done|].
        intros w' Hin. apply list_elem_of_singleton in Hin. done.
      * split; [|done]. intros _. split; repeat constructor.
Qed.

Lemma Start_listener_then_writer_witness :
  (run (Start (scenarioEnv writer_down) (chain_in writer_down))).1.2
  = Some (OtherError "writer cannot start")
  ∧ (run (Start (scenarioEnv happy) chain0)).1.2 = None.
Proof.
  split.
  - destruct (Start_listener_then_writer (scenarioEnv writer_down)
                (chain_in writer_down)) as (_ & _ & _ & _ & Hwriter & _).
    exact (proj2 (Hwriter eq_refl)).
  - apply (proj2 (proj2 (proj2 (proj2 (proj2
             (Start_listener_then_writer (scenarioEnv happy) chain0)))))).
    split; vm_compute; repeat constructor.
Defined.

(** C3.  When both stops succeed, [Chain.Stop] stops the Listener, then the
    Writer, then closes the Connection, makes no other call, and returns nil.
    On every path the Connection is closed only after both the Listener and
    the Writer have been stopped without an error. *)
Theorem Stop_stops_both_then_closes (E : Env) (c : Chain E) :
  let out := run (Stop E c) in
  ((Listener_Stop E (listener c)).2 = None →
   (Writer_Stop E (writer c)).2 = None →
   out.2 = [(EListenerStop (listener c), None); (EWriterStop (writer c), None);
            (EConnClose (conn c), None)] ∧
   out.1.2 = None ∧
   conn out.1.1 = Connection_Close E (conn c))
  ∧ (∀ pre cn o post, out.2 = pre ++ (EConnClose cn, o) :: post →
       pre = [(EListenerStop (listener c), None); (EWriterStop (writer c), None)]).
Proof.
  intros out. subst out. rewrite Stop_unfold.
  destruct (Listener_Stop E (listener c)) as [l [lerr|]]; simpl.
  - split; [done|].
    intros pre cn o post H. apply split_one in H as (_ & H & _). done.
  - destruct (Writer_Stop E (writer c)) as [w [werr|]]; simpl.
    + split; [done|]. intros pre cn o post H.
      apply split_two in H as [(_ & H & _)|(_ & H & _)]; done.
    + split; [done|]. intros pre cn o post H.
      apply split_three in H as [(_ & H & _)|[(_ & H & _)|(-> & _ & _)]]; done.
Qed.

Lemma Stop_stops_both_then_closes_witness :
  calls (run (Stop (scenarioEnv happy) chain0)).2
  = [EListenerStop (listener chain0); EWriterStop (writer chain0);
     EConnClose (conn chain0)]
  ∧ (run (Stop (scenarioEnv happy) chain0)).1.2 = None.
Proof.
  destruct (Stop_stops_both_then_closes (scenarioEnv happy) chain0) as [Hok _].
  destruct (Hok eq_refl eq_refl) as (Htr & Hnil & _).
  split; [by rewrite Htr | exact Hnil].
Defined.

(** ** [Chain.SetRouter] *)

(** C8.  [Chain.SetRouter] makes exactly one registration: it calls [Listen]
    on the Router it is given, with this chain's own [ChainId] and this
    chain's own Writer.  When that call returns, the next and last call hands
    the same Router to this chain's Listener, and the chain keeps its
    configuration, Connection and Writer. *)
Theorem SetRouter_registers_own_writer (E : Env) (c : Chain E) (r : Router E) :
  let out := run (SetRouter E c r) in
  filter (λ ev, isRouterListen ev = true) (calls out.2)
    = [ERouterListen r (Id (cfg c)) (writer c)]
  ∧ (Router_Listen E r (Id (cfg c)) (writer c) = None →
     calls out.2 = [ERouterListen r (Id (cfg c)) (writer c);
                    EListenerSetRouter (listener c) r] ∧
     out.1 = inl {| cfg := cfg c; conn := conn c;
                    listener := Listener_SetRouter E (listener c) r;
                    writer := writer c |}).
Proof.
  intros out. subst out. unfold SetRouter. unfold_go.
  destruct (Router_Listen E r (Id (cfg c)) (writer c)) as [err|]; simpl.
  - split; [done|]. intros [=].
  - split; [done|]. intros _. done.
Qed.

Lemma SetRouter_registers_own_writer_witness :
  calls (run (SetRouter (scenarioEnv happy) chain0 "router")).2
  = [ERouterListen ("router" : Router (scenarioEnv happy)) 0%N (writer chain0);
     EListenerSetRouter (listener chain0) "router"].
Proof.
  destruct (SetRouter_registers_own_writer (scenarioEnv happy) chain0 "router")
    as [_ Hret].
  exact (proj1 (Hret eq_refl)).
Defined.

(** ** [InitializeChain] *)

Lemma wp_run {E A} (m : M E A) (Q : A → list (Entry E) → Prop) :
  wp m Q [] → Q (run m).1 (run m).2.
Proof. done. Qed.

Lemma wp_ret {E A} (a : A) (Q : A → list (Entry E) → Prop) tr :
  Q a tr → wp (mret a) Q tr.
Proof. done. Qed.

Lemma wp_bind {E A B} (m : M E A) (k : A → M E B) Q tr :
  wp m (λ a tr', wp (k a) Q tr') tr → wp (m ≫= k) Q tr.
Proof.
  unfold wp, mbind, M_bind. by destruct (m tr) as [a tr'].
Qed.

Lemma wp_call {E A} (ev : Event E) (o : A → option error) (ans : A) Q tr :
  Q ans (tr ++ [(ev, o ans)]) → wp (call ev o ans) Q tr.
Proof. done. Qed.

(** The four ways [setupBlockstore] returns. *)
Lemma wp_setupBlockstore (E : Env) cfg kp Q tr :
  let new := NewBlockstore E (blockstorePath cfg) (id cfg) (Keypair_Address E kp) in
  (∀ err, new = inr err →
     Q (cfg, (None, Some err)) (tr ++ [(ENewBlockstore, Some err)])) →
  (∀ bs, new = inl bs → freshStart cfg = true →
     Q (cfg, (Some bs, None)) (tr ++ [(ENewBlockstore, None)])) →
  (∀ bs err, new = inl bs → freshStart cfg = false →
     TryLoadLatestBlock E bs = inr err →
     Q (cfg, (None, Some err))
       (tr ++ [(ENewBlockstore, None); (ETryLoadLatestBlock, Some err)])) →
  (∀ bs latest, new = inl bs → freshStart cfg = false →
     TryLoadLatestBlock E bs = inl latest →
     Q (if bool_decide (startBlock cfg < latest)
        then set_startBlock cfg latest else cfg, (Some bs, None))
       (tr ++ [(ENewBlockstore, None); (ETryLoadLatestBlock, None)])) →
  wp (setupBlockstore E cfg kp) Q tr.
Proof.
  intros new Herr Hfresh Hload_err Hload. subst new.
  unfold wp. rewrite setupBlockstore_unfold. simpl.
  destruct (NewBlockstore _ _ _ _) as [bs|err]; simpl; [|by apply Herr].
  destruct (freshStart cfg) eqn:Hf; [by apply Hfresh|].
  rewrite <-(assoc_L (++)). simpl.
  destruct (TryLoadLatestBlock E bs) as [latest|err] eqn:Hl; simpl;
    [|by eapply Hload_err].
  specialize (Hload bs latest eq_refl eq_refl Hl). by case_bool_decide.
Qed.

(** One step through a computation: a return, a sequence, a call, one of
    the functions of the source, or the case distinction on an answer. *)
Ltac wp_step :=
  lazymatch goal with
  | |- wp (mret _) _ _ => apply wp_ret
  | |- wp (_ ≫= _) _ _ => apply wp_bind
  | |- wp (call _ _ _) _ _ => apply wp_call; unfold no_err, err_of_opt; simpl
  | |- wp (createBridgeContract _ _ _) _ _ => unfold createBridgeContract
  | |- wp (createErc20HandlerContract _ _ _) _ _ =>
      unfold createErc20HandlerContract
  | |- wp (ensureHasBytecode _ _ _) _ _ => unfold ensureHasBytecode
  | |- wp (setupBlockstore _ _ _) _ _ =>
      apply wp_setupBlockstore; simpl;
      [intros ? ?|intros ? ? ?|intros ? ? ? ? ?
      |intros ? ? ? ? ?; case_bool_decide; simpl]
  | |- wp (match ?x with _ => _ end) _ _ =>
      let rec inner x :=
        lazymatch x with
        | context [match ?y with _ => _ end] => inner y
        | _ => destruct x eqn:?; simpl
        end in inner x
  end.

(** A call after a prefix free of bindings: when the trace is split at a
    creation of a binding, the entries before its first binding lie before
    the split. *)
Lemma until_binding_prefix {E} (tr pre post : list (Entry E)) en :
  tr = pre ++ en :: post → isBinding en.1 = true →
  ∃ mid, pre = until_binding tr ++ mid.
Proof.
  intros -> Hb. induction pre as [|a pre [mid IH]]; simpl.
  - rewrite Hb. by exists [].
  - destruct (isBinding a.1); [by eexists|].
    exists mid. by rewrite IH at 1.
Qed.

Lemma before_binding {E} (tr pre post : list (Entry E)) en x :
  x ∈ until_binding tr →
  tr = pre ++ en :: post → isBinding en.1 = true → x ∈ pre.
Proof.
  intros Hx Htr Hb. destruct (until_binding_prefix _ _ _ _ Htr Hb) as [mid ->].
  apply elem_of_app. by left.
Qed.

Lemma no_binding_split {E} (tr pre post : list (Entry E)) en :
  has_binding tr = false → tr = pre ++ en :: post → isBinding en.1 = true →
  False.
Proof.
  intros Hno -> Hb. unfold has_binding in Hno.
  rewrite existsb_app in Hno. simpl in Hno. rewrite Hb in Hno.
  by destruct (existsb _ pre).
Qed.

Lemma has_binding_false {E} (tr : list (Entry E)) ev :
  has_binding tr = false → ev ∈ calls tr → isBinding ev = false.
Proof.
  unfold has_binding, calls. intros Hno Hin.
  apply list_elem_of_fmap in Hin as ([ev' o] & -> & Hin). simpl.
  destruct (isBinding ev') eqn:Hb; [|done].
  rewrite <-Hno. symmetry. apply existsb_exists. exists (ev', o).
  split; [by apply list_elem_of_In|done].
Qed.

(** C2.  Once the configuration is parsed, if any of the three configured
    contract addresses (bridge, ERC20 handler, generic handler) holds no
    deployed bytecode, [InitializeChain] returns no Chain and an error, and
    creates no contract binding.  On every path, a contract binding is
    created only after the bytecode checks of all three addresses have been
    made and have passed. *)
Theorem InitializeChain_checks_bytecode_first (E : Env) (chainCfg : ChainConfig)
    (logger : Logger E) (cfg : Config) :
  parseChainConfig E chainCfg = inl cfg →
  let out := run (InitializeChain E chainCfg logger) in
  (no_bytecode E (bridgeContract cfg) ∨
   no_bytecode E (erc20HandlerContract cfg) ∨
   no_bytecode E (genericHandlerContract cfg) →
   out.1.1 = None ∧ is_Some out.1.2 ∧
   ∀ ev, ev ∈ calls out.2 → isBinding ev = false)
  ∧ (∀ pre ev o post,
       out.2 = pre ++ (ev, o) :: post → isBinding ev = true →
       (EEnsureHasBytecode (bridgeContract cfg), None) ∈ pre ∧
       (EEnsureHasBytecode (erc20HandlerContract cfg), None) ∈ pre ∧
       (EEnsureHasBytecode (genericHandlerContract cfg), None) ∈ pre).
Proof.
  intros Hparse out. subst out.
  cut (wp (InitializeChain E chainCfg logger) (λ res tr,
    (no_bytecode E (bridgeContract cfg) ∨
     no_bytecode E (erc20HandlerContract cfg) ∨
     no_bytecode E (genericHandlerContract cfg) →
     res.1 = None ∧ is_Some res.2 ∧ has_binding tr = false)
    ∧ (has_binding tr = true →
       (EEnsureHasBytecode (bridgeContract cfg), None) ∈ until_binding tr ∧
       (EEnsureHasBytecode (erc20HandlerContract cfg), None) ∈ until_binding tr ∧
       (EEnsureHasBytecode (genericHandlerContract cfg), None) ∈ until_binding tr))
    []).
  { intros [Hmissing Hordered]%wp_run. split.
    - intros Hno. destruct (Hmissing Hno) as (? & ? & Hnone).
      repeat split; [done..|]. intros ev. by apply has_binding_false.
    - intros pre ev o post Hsplit Hb.
      destruct (has_binding (run (InitializeChain E chainCfg logger)).2) eqn:Hhas.
      + destruct (Hordered eq_refl) as (H1 & H2 & H3).
        repeat split; eapply before_binding; eauto.
      + destruct (no_binding_split _ _ _ _ Hhas Hsplit Hb). }
  unfold InitializeChain. wp_step. wp_step. rewrite Hparse. simpl.
  repeat wp_step.
  all: split; simpl.
  all: try (intros _; by repeat split; eauto).
  all: try (by intros [Hno|[Hno|Hno]];
    match goal with
    | H : CodeAt _ ?cl _ = inl (_ :: _) |- _ =>
        pose proof (Hno cl); congruence
    end).
  all: try done.
  all: intros _; repeat split; repeat constructor.
Qed.

Lemma InitializeChain_checks_bytecode_first_witness :
  (run (InitializeChain (scenarioEnv erc20_missing) chainCfg0 ())).1.1 = None.
Proof.
  refine (proj1 (proj1 (InitializeChain_checks_bytecode_first
    (scenarioEnv erc20_missing) chainCfg0 () cfg0 eq_refl) _)).
  right. left. intros cl. reflexivity.
Defined.

(** A trace none of whose entries answered an error. *)
Ltac no_failed_entry :=
  let Hin := fresh "Hin" in
  intros ? ? Hin;
  repeat (apply elem_of_cons in Hin as [Hin|Hin]; [by simplify_eq|]);
  by apply elem_of_nil in Hin.

(** C5.  Whenever a step of [InitializeChain] (parsing the configuration,
    loading the key pair, setting up the blockstore, connecting, a bytecode
    check, creating a contract binding) answers an error, [InitializeChain]
    returns a nil Chain together with that error.  A nil Chain always comes
    with the error of the last call made.  A Chain is returned, with a nil
    error, only when the calls made are all the steps of the initialization
    and every one of them succeeded. *)
Theorem InitializeChain_nil_chain_with_error (E : Env) (chainCfg : ChainConfig)
    (logger : Logger E) :
  let out := run (InitializeChain E chainCfg logger) in
  (∀ ev err, (ev, Some err) ∈ out.2 → out.1 = (None, Some err))
  ∧ (out.1.1 = None →
     ∃ ev err, last out.2 = Some (ev, Some err) ∧ out.1.2 = Some err)
  ∧ (∀ ch, out.1.1 = Some ch →
     out.1.2 = None ∧
     ∃ cfg, parseChainConfig E chainCfg = inl cfg ∧
            out.2 = (λ ev, (ev, None)) <$> init_calls chainCfg cfg).
Proof.
  intros out. subst out.
  apply (wp_run (InitializeChain E chainCfg logger) (λ res tr,
    (∀ ev err, (ev, Some err) ∈ tr → res = (None, Some err))
    ∧ (res.1 = None →
       ∃ ev err, last tr = Some (ev, Some err) ∧ res.2 = Some err)
    ∧ (∀ ch, res.1 = Some ch →
       res.2 = None ∧
       ∃ cfg, parseChainConfig E chainCfg = inl cfg ∧
              tr = (λ ev, (ev, None)) <$> init_calls chainCfg cfg))).
  unfold InitializeChain. repeat wp_step.
  all: split; [no_failed_entry|split]; simpl.
  all: try (by intros _; eauto).
  all: try (by intros ch [=]).
  all: try done.
  all: intros ch _; split; [done|]; eexists; split; [done|].
  all: unfold init_calls; simpl.
  all: match goal with H : freshStart _ = _ |- _ => by rewrite H end.
Qed.

Lemma InitializeChain_nil_chain_with_error_witness :
  (run (InitializeChain (scenarioEnv refused) chainCfg0 ())).1
  = (None, Some (TransientRPCError "connection refused")).
Proof.
  apply (proj1 (InitializeChain_nil_chain_with_error (scenarioEnv refused)
                  chainCfg0 ()) EConnect).
  vm_compute. repeat constructor.
Defined.

(** ** Runs of the Listener *)

Section ListenerRuns.
Import ListenerModel.
Context {R : Type} `{RouterI R}.

Lemma FetchLogs_empty (cn : Connection) (a b : Z) :
  b < a → FetchLogs cn a b = [].
Proof. intros Hlt. unfold FetchLogs. rewrite seqZ_nil by lia. done. Qed.

Lemma FetchLogs_app (cn : Connection) (a b c : Z) :
  a ≤ b + 1 → b ≤ c →
  FetchLogs cn a b ++ FetchLogs cn (b + 1) c = FetchLogs cn a c.
Proof.
  intros Hab Hbc. unfold FetchLogs.
  replace (c - a + 1) with ((b - a + 1) + (c - (b + 1) + 1)) by lia.
  rewrite (seqZ_app a (b - a + 1) (c - (b + 1) + 1)), fmap_app, concat_app by lia.
  by replace (a + (b - a + 1)) with (b + 1) by lia.
Qed.

Lemma translate_app (c : Config) (ls1 ls2 : list Log) :
  translate c (ls1 ++ ls2) =
    let '(ms1, ok1) := translate c ls1 in
    if ok1 then let '(ms2, ok2) := translate c ls2 in (ms1 ++ ms2, ok2)
    else (ms1, false).
Proof.
  induction ls1 as [|[ev| |] ls1 IH]; simpl.
  - by destruct (translate c ls2).
  - rewrite IH. destruct (translate c ls1) as [ms1 [|]]; [|done].
    by destruct (translate c ls2).
  - done.
  - done.
Qed.

(** The nonces of the Messages of a list of logs are the first nonces of its
    events. *)
Lemma translate_nonces (c : Config) (ls : list Log) :
  DepositNonce <$> (translate c ls).1 `prefix_of` ev_nonce <$> events ls.
Proof.
  induction ls as [|[ev| |] ls IH]; simpl.
  - done.
  - destruct (translate c ls) as [ms ok]; simpl in *.
    assert (DepositNonce (toMessage c ev) = ev_nonce ev) as -> by by destruct ev.
    by apply prefix_cons.
  - done.
  - apply prefix_nil.
Qed.

Lemma events_app (ls1 ls2 : list Log) :
  events (ls1 ++ ls2) = events ls1 ++ events ls2.
Proof. apply omap_app. Qed.

(** Along increasing blocks of a chain with increasing nonces, the nonces of
    the events increase. *)
Lemma events_sorted (cn : Connection) (bs : list Z) :
  monotone_nonces cn → StronglySorted Z.lt bs →
  StronglySorted N.lt (ev_nonce <$> events (concat (logs cn <$> bs))).
Proof.
  intros [Hblock Hcross]. induction bs as [|b bs IH]; simpl; [constructor|].
  intros [Hb Hbs]%StronglySorted_cons.
  rewrite events_app, fmap_app. apply StronglySorted_app_2; [|done|by apply IH].
  intros n1 n2 (ev1 & -> & Hev1)%list_elem_of_fmap
    (ev2 & -> & Hev2)%list_elem_of_fmap.
  unfold events in Hev2 at 1.
  apply list_elem_of_omap in Hev2 as (lg & Hlg & Hdec).
  apply list_elem_of_In, in_concat in Hlg as (lgs & Hlgs & Hlg).
  apply list_elem_of_In, list_elem_of_fmap in Hlgs as (b2 & -> & Hb2).
  apply list_elem_of_In in Hlg.
  apply (Hcross b b2); [|done|].
  - rewrite Forall_forall in Hb. by apply Hb.
  - apply list_elem_of_omap. by exists lg.
Qed.

Lemma seqZ_sorted (m n : Z) : StronglySorted Z.lt (seqZ m n).
Proof.
  destruct (decide (0 ≤ n)) as [Hn|Hn]; [|rewrite seqZ_nil by lia; constructor].
  revert m. pattern n. apply natlike_ind; [|clear n Hn|done].
  - intros m. constructor.
  - intros n Hn IH m. rewrite seqZ_cons by lia.
    replace (Z.pred (Z.succ n)) with n by lia.
    apply StronglySorted_cons. split; [|apply IH].
    apply Forall_forall. intros k Hk%elem_of_seqZ. lia.
Qed.

Lemma prefix_sorted {A} (Rel : relation A) (l1 l2 : list A) :
  l1 `prefix_of` l2 → StronglySorted Rel l2 → StronglySorted Rel l1.
Proof. intros [k ->]. apply StronglySorted_app_1_l. Qed.

(** The Messages of a range of blocks have increasing nonces. *)
Lemma translate_sorted (cn : Connection) (c : Config) (a hi : Z) :
  monotone_nonces cn →
  StronglySorted N.lt (DepositNonce <$> (translate c (FetchLogs cn a hi)).1).
Proof.
  intros Hmono. eapply prefix_sorted; [apply translate_nonces|].
  apply events_sorted; [done|apply seqZ_sorted].
Qed.

Lemma Scanned_refl (l : Listener R) : Scanned l l [].
Proof.
  repeat split; [lia|by destruct (router l)|].
  left. by rewrite FetchLogs_empty by lia.
Qed.

(** Two parts of a run compose; once the Listener has stopped, nothing
    follows. *)
Lemma Scanned_trans (l l1 l2 : Listener R) (ms1 ms2 : list Message) :
  Scanned l l1 ms1 → Scanned l1 l2 ms2 →
  (phase l1 = Stopped → l2 = l1 ∧ ms2 = []) →
  Scanned l l2 (ms1 ++ ms2).
Proof.
  intros (Hcn1 & Hcfg1 & Hcur1 & Hr1 & Hms1) (Hcn2 & Hcfg2 & Hcur2 & Hr2 & Hms2)
    Hstopped.
  rewrite Hcn1, Hcfg1 in Hms2.
  assert (router l2 = (λ r, foldl handOff r (ms1 ++ ms2)) <$> router l) as Hr.
  { rewrite Hr2, Hr1. destruct (router l); simpl; [|done].
    by rewrite foldl_app. }
  destruct Hms1 as [Hms1|[Hst1 [hi Hms1]]].
  - split; [congruence|]. split; [congruence|]. split; [lia|]. split; [done|].
    destruct Hms2 as [Hms2|[Hst2 [hi Hms2]]].
    + left. rewrite <-(FetchLogs_app _ _ (cursor l1 - 1)) by lia.
      rewrite translate_app, Hms1.
      replace (cursor l1 - 1 + 1) with (cursor l1) by lia. by rewrite Hms2.
    + right. split; [done|]. exists hi.
      destruct (decide (cursor l1 - 1 ≤ hi)) as [Hle|Hgt].
      * rewrite <-(FetchLogs_app _ _ (cursor l1 - 1)) by lia.
        rewrite translate_app, Hms1.
        replace (cursor l1 - 1 + 1) with (cursor l1) by lia. by rewrite Hms2.
      * rewrite FetchLogs_empty in Hms2 by lia. done.
  - destruct (Hstopped Hst1) as [-> ->]. rewrite app_nil_r.
    repeat split; [done..|]. right. eauto.
Qed.

(** One chunk that starts at the cursor. *)
Lemma scanChunk_Scanned (failures : nat) (b : Z) (l : Listener R) :
  cursor l ≤ b →
  Scanned l (scanChunk failures (cursor l) b l).1
    (scanChunk failures (cursor l) b l).2.
Proof.
  intros Hle. unfold Scanned, scanChunk, stopWith. case_decide; simpl.
  { repeat split; [lia|by destruct (router l)|].
    left. by rewrite FetchLogs_empty by lia. }
  destruct (translate (cfg l) (FetchLogs (conn l) (cursor l) b))
    as [ms ok] eqn:Hms.
  destruct ms as [|m ms], (router l) as [r|] eqn:Hr, ok; simpl; rewrite ?Hr;
    (split; [done|]; split; [done|]; split; [lia|]; split; [done|]);
    first [ by left; replace (b + 1 - 1) with b by lia
          | by left; rewrite FetchLogs_empty by lia
          | by right; eauto ].
Qed.

Lemma scan_not_polling (fuel : nat) (target : Z) (fs : list nat) (l : Listener R) :
  phase l ≠ Polling → scan fuel target fs l = (l, []).
Proof. destruct fuel; simpl; [done|]. by destruct (phase l). Qed.

Lemma scan_Scanned (fuel : nat) (target : Z) (fs : list nat) (l : Listener R) :
  Scanned l (scan fuel target fs l).1 (scan fuel target fs l).2.
Proof.
  revert fs l. induction fuel as [|fuel IH]; intros fs l; simpl;
    [apply Scanned_refl|].
  destruct (phase l) eqn:Hphase; try apply Scanned_refl.
  case_decide as Hle; [|apply Scanned_refl].
  pose proof (scanChunk_Scanned (default O (head fs))
    (Z.min (cursor l + Z.pos (chunkSize (cfg l)) - 1) target) l) as Hchunk.
  destruct (scanChunk _ _ _ l) as [l1 ms1]. simpl in Hchunk.
  specialize (IH (tail fs) l1).
  pose proof (scan_not_polling fuel target (tail fs) l1) as Hnot.
  destruct (scan fuel target (tail fs) l1) as [l2 ms2]. simpl in *.
  apply (Scanned_trans _ l1); [apply Hchunk; lia|done|].
  intros Hst. assert ((l1, ms1 ++ ms2).1 = l1) as _ by done.
  rewrite Hst in Hnot. by injection (Hnot ltac:(done)) as -> ->.
Qed.

Lemma cycle_Scanned (o : Observation) (l : Listener R) :
  Scanned l (cycle o l).1 (cycle o l).2.
Proof.
  unfold cycle. destruct (phase l); try apply Scanned_refl.
  case_decide; [apply Scanned_refl|apply scan_Scanned].
Qed.

Lemma cycle_not_polling (o : Observation) (l : Listener R) :
  phase l ≠ Polling → cycle o l = (l, []).
Proof. unfold cycle. by destruct (phase l). Qed.

Lemma poll_not_polling (os : list Observation) (l : Listener R) :
  phase l ≠ Polling → poll os l = (l, []).
Proof.
  induction os as [|o os IH]; simpl; [done|]. intros Hphase.
  by rewrite cycle_not_polling, IH.
Qed.

(** A run produces the Messages of the logs from its first cursor on. *)
Lemma poll_Scanned (os : list Observation) (l : Listener R) :
  Scanned l (poll os l).1 (poll os l).2.
Proof.
  revert l. induction os as [|o os IH]; intros l; simpl; [apply Scanned_refl|].
  pose proof (cycle_Scanned o l) as Hcycle.
  destruct (cycle o l) as [l1 ms1]. simpl in Hcycle.
  specialize (IH l1). pose proof (poll_not_polling os l1) as Hnot.
  destruct (poll os l1) as [l2 ms2]. simpl in *.
  apply (Scanned_trans _ l1); [done..|].
  intros Hst. rewrite Hst in Hnot. by injection (Hnot ltac:(done)) as -> ->.
Qed.

(** The Messages of a run, as the Messages of a range of blocks. *)
Lemma poll_translate (os : list Observation) (l : Listener R) :
  ∃ hi, (poll os l).2 = (translate (cfg l) (FetchLogs (conn l) (cursor l) hi)).1.
Proof.
  destruct (poll_Scanned os l) as (_ & _ & _ & _ & [Hms|[_ [hi Hms]]]);
    eexists; by rewrite Hms.
Qed.

End ListenerRuns.

(** *** Uniqueness of the deposit nonces of a run *)

Lemma sorted_lt_NoDup (ns : list N) : StronglySorted N.lt ns → NoDup ns.
Proof.
  induction 1 as [|n ns Hsorted IH Hall]; constructor; [|done].
  intros Hin. rewrite Forall_forall in Hall. specialize (Hall n Hin). lia.
Qed.

(** C7.  On a chain whose bridge contract numbers its deposits increasingly,
    the Messages a run of the Listener produces have strictly increasing
    deposit nonces in the order they are produced, and pairwise distinct
    pairs of source and deposit nonce. *)
Theorem poll_nonces_unique_increasing {R : Type} `{RouterI R}
    (l : ListenerModel.Listener R) (os : list ListenerModel.Observation) :
  monotone_nonces (ListenerModel.conn l) →
  let ms := (ListenerModel.poll os l).2 in
  StronglySorted N.lt (DepositNonce <$> ms) ∧
  NoDup ((λ m, (Source m, DepositNonce m)) <$> ms).
Proof.
  intros Hmono ms. subst ms. destruct (poll_translate os l) as [hi ->].
  pose proof (translate_sorted _ (ListenerModel.cfg l) (ListenerModel.cursor l)
                hi Hmono) as Hsorted.
  split; [done|].
  apply (NoDup_fmap_1 snd). rewrite <-list_fmap_compose.
  by apply sorted_lt_NoDup.
Qed.

Lemma chain3_monotone : monotone_nonces chain3.
Proof.
  split.
  - intros b. simpl. destruct (b =? 3); [|destruct (b =? 4)]; simpl;
      repeat constructor; lia.
  - intros b1 b2 ev1 ev2 Hlt. simpl.
    destruct (b1 =? 3) eqn:H1; [|destruct (b1 =? 4) eqn:H1'];
      (destruct (b2 =? 3) eqn:H2; [|destruct (b2 =? 4) eqn:H2']); simpl;
      intros Hev1 Hev2;
      repeat (apply elem_of_cons in Hev1 as [->|Hev1]);
      try (by apply elem_of_nil in Hev1);
      repeat (apply elem_of_cons in Hev2 as [->|Hev2]);
      try (by apply elem_of_nil in Hev2); simpl; lia.
Qed.

Lemma poll_nonces_unique_increasing_witness :
  StronglySorted N.lt
    (DepositNonce <$>
       (ListenerModel.poll [observe 5; observe 9] (started0 chain3)).2).
Proof.
  exact (proj1 (poll_nonces_unique_increasing (started0 chain3)
                  [observe 5; observe 9] chain3_monotone)).
Defined.

(** *** Progress of the polling loop *)

Section Progress.
Import ListenerModel.
Context {R : Type} `{RouterI R}.

(** With a Router, enough fuel, and fetches within the retries, a scan ends
    with the cursor past its target. *)
Lemma scan_progress (fuel : nat) (target : Z) (fs : list nat) (l : Listener R) :
  phase l = Polling → is_Some (router l) → no_mismatch l →
  Forall (λ f, (f ≤ maxRetries (cfg l))%nat) fs →
  cursor l ≤ target + 1 →
  (Z.to_nat (target - cursor l + 1) ≤ fuel)%nat →
  phase (scan fuel target fs l).1 = Polling ∧
  is_Some (router (scan fuel target fs l).1) ∧
  cursor (scan fuel target fs l).1 = target + 1.
Proof.
  revert fs l. induction fuel as [|fuel IH];
    intros fs l Hphase [r Hr] Hok Hfs Hle Hfuel; simpl.
  { split; [done|]. split; [by eexists|lia]. }
  rewrite Hphase.
  case_decide as Hcur; [|simpl; split; [done|]; split; [by eexists|lia]].
  set (b := Z.min (cursor l + Z.pos (chunkSize (cfg l)) - 1) target).
  assert (cursor l ≤ b ≤ target) as Hb by (unfold b; lia).
  assert (default 0%nat (head fs) ≤ maxRetries (cfg l))%nat as Hf.
  { destruct Hfs as [|f fs Hf _]; simpl; [lia|done]. }
  unfold scanChunk. rewrite decide_False by lia.
  pose proof (Hok (cursor l) b) as Hokb.
  destruct (translate (cfg l) (FetchLogs (conn l) (cursor l) b)) as [ms ok].
  simpl in Hokb. subst ok. rewrite Hr.
  assert (Forall (λ f, (f ≤ maxRetries (cfg l))%nat) (tail fs)) as Htail
    by (destruct Hfs; [constructor|done]).
  destruct ms as [|m ms]; simpl;
    match goal with
    | |- context [scan fuel target (tail fs) ?l1] =>
        specialize (IH (tail fs) l1); destruct (scan fuel target (tail fs) l1)
    end;
    simpl in *; (apply IH; [done|by eexists|exact Hok|done|lia|lia]).
Qed.

Lemma cycle_progress (o : Observation) (l : Listener R) :
  phase l = Polling → is_Some (router l) → no_mismatch l → benign (cfg l) o →
  phase (cycle o l).1 = Polling ∧
  is_Some (router (cycle o l).1) ∧
  cursor (cycle o l).1 = Z.max (cursor l) (obs_head o - confirmations (cfg l) + 1).
Proof.
  intros Hphase Hrouter Hok Hbenign. unfold cycle. rewrite Hphase.
  case_decide as Hlt; simpl; [split; [done|]; split; [done|lia]|].
  destruct (scan_progress
    (Z.to_nat (obs_head o - confirmations (cfg l) - cursor l + 1))
    (obs_head o - confirmations (cfg l)) (obs_failures o) l) as (Hp & Hr & Hc);
    [done|done|done|done|lia|lia|].
  split; [done|]. split; [done|lia].
Qed.

(** In a run whose fetches stay within the retries, the loop keeps polling
    and the cursor passes every block the observed heads confirm. *)
Lemma poll_progress (os : list Observation) (l : Listener R) :
  phase l = Polling → is_Some (router l) → no_mismatch l →
  Forall (benign (cfg l)) os →
  phase (poll os l).1 = Polling ∧
  cursor l ≤ cursor (poll os l).1 ∧
  Forall (λ o, obs_head o - confirmations (cfg l) < cursor (poll os l).1) os.
Proof.
  revert l. induction os as [|o os IH]; intros l Hphase Hrouter Hok Hos; simpl.
  { split; [done|]. split; [lia|constructor]. }
  apply Forall_cons in Hos as [Ho Hos].
  destruct (cycle_progress o l Hphase Hrouter Hok Ho) as (Hp1 & Hr1 & Hc1).
  destruct (cycle_Scanned o l) as (Hcn & Hcfg & _).
  destruct (cycle o l) as [l1 ms1]. simpl in *.
  specialize (IH l1). destruct (poll os l1) as [l2 ms2]. simpl in *.
  destruct IH as (Hp2 & Hc2 & Hall); [done|done| |by rewrite Hcfg|].
  { unfold no_mismatch. by rewrite Hcfg, Hcn. }
  split; [done|]. split; [lia|]. rewrite Hcfg in Hall.
  constructor; [lia|done].
Qed.

End Progress.

(** *** The deposit of the happy-path scenario *)

Section Deposit.
Import ListenerModel.

Lemma MockRouter_handOff (r : MockRouter) (ms : list Message) :
  msgs (foldl handOff r ms) = msgs r ++ ms.
Proof.
  revert r. induction ms as [|m ms IH]; intros r; simpl.
  - by rewrite app_nil_r.
  - rewrite IH. simpl. by rewrite <-(assoc_L (++)).
Qed.

Lemma FetchLogs_none (cn : Connection) (a b : Z) :
  (∀ k, a ≤ k ≤ b → logs cn k = []) → FetchLogs cn a b = [].
Proof.
  intros Hnone. unfold FetchLogs.
  assert (∀ ks, Forall (λ k, logs cn k = []) ks → concat (logs cn <$> ks) = [])
    as Hconcat.
  { induction 1 as [|k ks Hk _ IH]; simpl; [done|]. rewrite Hk. exact IH. }
  apply Hconcat, Forall_forall. intros k Hk%elem_of_seqZ. apply Hnone. lia.
Qed.

Lemma FetchLogs_one (cn : Connection) (b : Z) : FetchLogs cn b b = logs cn b.
Proof.
  unfold FetchLogs. replace (b - b + 1) with 1 by lia.
  simpl. by rewrite app_nil_r.
Qed.

Variables (bob : Address) (b0 : Z).

(** The logs of a range of the chain that holds the one deposit. *)
Lemma FetchLogs_deposit (cn : Connection) (a b : Z) :
  logs cn = depositLogs bob b0 →
  FetchLogs cn a b =
    if decide (a ≤ b0 ≤ b)
    then [Decodes (Erc20Deposit 1%N 1%N bob 10)] else [].
Proof.
  intros Hlogs.
  assert (∀ k, k ≠ b0 → logs cn k = []) as Hother.
  { intros k Hk. rewrite Hlogs. unfold depositLogs.
    by rewrite (proj2 (Z.eqb_neq k b0)). }
  case_decide as Hin.
  - rewrite <-(FetchLogs_app cn a (b0 - 1) b) by lia.
    rewrite (FetchLogs_none cn a (b0 - 1)) by (intros; apply Hother; lia).
    replace (b0 - 1 + 1) with b0 by lia.
    rewrite <-(FetchLogs_app cn b0 b0 b) by lia.
    rewrite (FetchLogs_none cn (b0 + 1) b) by (intros; apply Hother; lia).
    rewrite FetchLogs_one, Hlogs. unfold depositLogs.
    by rewrite Z.eqb_refl.
  - apply FetchLogs_none. intros k Hk. apply Hother. lia.
Qed.

(** The Message of the deposit is the Message the test expects. *)
Lemma toMessage_expected (c : Config) (width : N) :
  (0 < width)%N → id c = 0%N →
  toMessage c (Erc20Deposit 1%N 1%N bob 10)
  = expectedMessage width bob (erc20HandlerContract c).
Proof.
  intros Hwidth Hid.
  assert (to_ChainId width 0 = 0%N) as Hsource.
  { unfold to_ChainId. apply N.Div0.mod_0_l. }
  assert (to_ChainId width (Uint64 destId) = 1%N) as Hdest.
  { unfold to_ChainId. apply N.mod_small.
    change (Uint64 destId) with 1%N.
    apply (N.lt_le_trans _ (2 ^ 1)); [done|]. apply N.pow_le_mono_r; lia. }
  unfold toMessage, expectedMessage. by rewrite Hid, Hsource, Hdest.
Qed.

End Deposit.

(** C4.  In [TestListener_depositEvent], with the Listener of chain 0 started
    by [createTestListener] and the one ERC20 deposit (destination 1, deposit
    nonce 1, amount 10, recipient Bob) on its chain: whatever the loop
    observes, the mock Router holds exactly the Messages produced, which are
    none or the one expected Message; and when an observed head confirms the
    block of the deposit before the time of the test is over, with fetches
    within the retries, exactly one Message, the expected one, is delivered,
    and the test, whose transactions went through, passes. *)
Theorem depositEvent_delivered_once (width : N) (bob : Address) (b0 : Z)
    (ts : TestSetup) (config : ListenerModel.Config)
    (contracts : DeployedContracts) (l : ListenerModel.Listener MockRouter)
    (router : MockRouter) (os : list ListenerModel.Observation) :
  (0 < width)%N →
  ListenerModel.id config = 0%N →
  ListenerModel.logs (newLocalConnection ts) = depositLogs bob b0 →
  ListenerModel.startBlock config ≤ b0 →
  createTestListener ts config contracts = inl (l, router) →
  let out := ListenerModel.poll os l in
  let expected := expectedMessage width bob (ERC20HandlerAddress contracts) in
  msgs <$> ListenerModel.router out.1 = Some out.2 ∧
  (out.2 = [] ∨ out.2 = [expected]) ∧
  (Forall (benign (ListenerModel.cfg l)) os →
   Exists (λ o, b0 ≤ ListenerModel.obs_head o
                     - ListenerModel.confirmations (ListenerModel.cfg l)) os →
   out.2 = [expected] ∧
   (newTransactOpts ts = None → createErc20Deposit ts = None →
    TestListener_depositEvent ts config contracts width bob os = Pass)).
Proof.
  intros Hwidth Hid Hlogs Hstart Hcreate out expected.
  unfold TestListener_depositEvent. rewrite Hcreate.
  unfold createTestListener, answer, createBridgeContract,
    createErc20HandlerContract, run, call in Hcreate.
  simpl in Hcreate.
  destruct (bridgeBinding ts _ _); [done|].
  destruct (erc20HandlerBinding ts _ _); [done|].
  destruct (connectivity ts 0%nat); [|done].
  destruct (checkBridgeContract ts _ _); [done|]. injection Hcreate as <- <-.
  set (l := ListenerModel.Build_Listener _ _ _ _ _ _ _ _ _ _) in *.
  assert (ListenerModel.cursor l = ListenerModel.startBlock config) as Hcursor.
  { unfold l, ListenerModel.seed. simpl.
    by destruct (ListenerModel.freshStart config). }
  assert (∀ a hi,
    ListenerModel.translate (ListenerModel.cfg l)
      (ListenerModel.FetchLogs (ListenerModel.conn l) a hi)
    = (if decide (a ≤ b0 ≤ hi) then [expected] else [], true)) as Htranslate.
  { intros a hi. rewrite (FetchLogs_deposit bob b0) by done.
    case_decide; [|done]. cbn [ListenerModel.translate].
    by rewrite (toMessage_expected bob _ width) by done. }
  destruct (poll_Scanned os l) as (_ & _ & Hle & Hrouter & Hms).
  fold out in Hle, Hrouter, Hms.
  change (ListenerModel.router l) with (Some {| msgs := [] |}) in Hrouter.
  simpl in Hrouter.
  destruct Hms as [Hms|[_ [hi Hms]]]; rewrite Htranslate in Hms; [|done].
  rewrite Hcursor in Hms. apply (f_equal fst) in Hms. cbn [fst] in Hms.
  split; [by rewrite Hrouter; simpl; rewrite MockRouter_handOff|].
  split; [rewrite <-Hms; case_decide; auto|].
  intros Hbenign Hconfirmed.
  assert (b0 < ListenerModel.cursor out.1) as Hpassed.
  { destruct (poll_progress os l) as (_ & _ & Hall); [done|by eexists| |done|].
    - intros a hi. by rewrite Htranslate.
    - apply Exists_exists in Hconfirmed as (o & Ho & Hhead).
      rewrite Forall_forall in Hall. specialize (Hall o Ho).
      fold out in Hall. lia. }
  rewrite decide_True in Hms by lia.
  split; [done|]. intros -> ->.
  unfold verifyMessage. fold out.
  rewrite Hrouter. simpl. rewrite MockRouter_handOff, <-Hms. simpl.
  by rewrite decide_True.
Qed.

Lemma depositEvent_delivered_once_witness :
  TestListener_depositEvent setup0 listenerCfg0 contracts0 8 7%N
    [observe 3; observe 6] = Pass.
Proof.
  refine (proj2 (proj2 (proj2 (depositEvent_delivered_once 8 7%N 4 setup0
    listenerCfg0 contracts0 _ _ [observe 3; observe 6] _ eq_refl eq_refl _
    eq_refl)) _ _) eq_refl eq_refl).
  - reflexivity.
  - simpl. lia.
  - repeat constructor.
  - apply Exists_cons_tl, Exists_cons_hd. simpl. lia.
Defined.

(** * Further properties of the source *)

(** ** [setupBlockstore]: errors and invariants *)

(** X1.  When the blockstore cannot be opened, [setupBlockstore] returns a
    nil blockstore with that error, leaves the configuration as it is and
    never asks for the latest block; when the latest block cannot be loaded
    it returns a nil blockstore with that error and the configuration as it
    is.  On every path exactly one of the blockstore and the error is nil,
    and an error comes with an untouched configuration. *)
Theorem setupBlockstore_error_leaves_config (E : Env) (cfg : Config)
    (kp : option (Keypair E)) (tr : list (Entry E)) :
  let new := NewBlockstore E (blockstorePath cfg) (id cfg) (Keypair_Address E kp) in
  let out := setupBlockstore E cfg kp tr in
  (∀ err, new = inr err →
     out.1 = (cfg, (None, Some err)) ∧
     calls out.2 = calls tr ++ [ENewBlockstore])
  ∧ (∀ bs err, new = inl bs → freshStart cfg = false →
       TryLoadLatestBlock E bs = inr err →
       out.1 = (cfg, (None, Some err)))
  ∧ (out.1.2.1 = None ↔ is_Some out.1.2.2)
  ∧ (is_Some out.1.2.2 → out.1.1 = cfg).
Proof.
  intros new out. subst new out. rewrite setupBlockstore_unfold. simpl.
  destruct (NewBlockstore _ _ _ _) as [bs|err]; simpl.
  - split; [done|].
    destruct (freshStart cfg); simpl.
    + repeat split; try done; by intros [? [=]].
    + destruct (TryLoadLatestBlock E bs) as [latest|err] eqn:Hl; simpl.
      * case_bool_decide; simpl; repeat split; try done;
          try (by intros [? [=]]); intros ? ? [= <-] _ ?; congruence.
      * repeat split; try done. intros ? ? [= <-] _ ?. congruence.
  - split; [|repeat split; try done].
    intros ? [= <-]. split; [done|]. unfold calls. by rewrite fmap_app.
Qed.

Lemma setupBlockstore_error_leaves_config_witness :
  (setupBlockstore (scenarioEnv latest_unreadable) cfg0 (Some "0xff93") []).1
  = (cfg0, (None, Some (OtherError "unreadable block file"))).
Proof.
  exact (proj1 (proj2 (setupBlockstore_error_leaves_config
    (scenarioEnv latest_unreadable) cfg0 (Some "0xff93") []))
    (inr (OtherError "unreadable block file")) _ eq_refl eq_refl eq_refl).
Defined.

(** X2.  [setupBlockstore] never lowers [cfg.startBlock] and changes no
    other field of the configuration, whatever the blockstore answers. *)
Theorem setupBlockstore_only_raises_startBlock (E : Env) (cfg : Config)
    (kp : option (Keypair E)) (tr : list (Entry E)) :
  let cfg' := (setupBlockstore E cfg kp tr).1.1 in
  cfg' = set_startBlock cfg (startBlock cfg') ∧ startBlock cfg ≤ startBlock cfg'.
Proof.
  intros cfg'. subst cfg'. rewrite setupBlockstore_unfold. simpl.
  assert (cfg = set_startBlock cfg (startBlock cfg)) as Hsame by by destruct cfg.
  destruct (NewBlockstore _ _ _ _) as [bs|err]; simpl; [|split; [done|lia]].
  destruct (freshStart cfg); simpl; [split; [done|lia]|].
  destruct (TryLoadLatestBlock E bs) as [latest|err]; simpl; [|split; [done|lia]].
  case_bool_decide; simpl; split; try done; lia.
Qed.

(** X3.  Seeding is idempotent: [setupBlockstore] run again on the
    configuration it left, with the blockstore answering the same, returns
    the same result and leaves that configuration as it is. *)
Theorem setupBlockstore_idempotent (E : Env) (cfg : Config)
    (kp : option (Keypair E)) (tr tr' : list (Entry E)) :
  let out := setupBlockstore E cfg kp tr in
  (setupBlockstore E out.1.1 kp tr').1 = out.1.
Proof.
  intros out. subst out. rewrite !setupBlockstore_unfold. simpl.
  destruct (NewBlockstore E (blockstorePath cfg) _ _) as [bs|err] eqn:Hnew; simpl.
  - destruct (freshStart cfg) eqn:Hf; simpl.
    + by rewrite Hnew, Hf.
    + destruct (TryLoadLatestBlock E bs) as [latest|err] eqn:Hl; simpl.
      * case_bool_decide; simpl; rewrite Hnew, Hf, Hl; simpl.
        -- rewrite bool_decide_false by lia. done.
        -- rewrite bool_decide_false by lia. done.
      * rewrite Hnew, Hf, Hl. done.
  - by rewrite Hnew.
Qed.

(** ** [InitializeChain]: wiring and order *)

(** X4.  A Chain that [InitializeChain] returns is wired as follows: its
    Connection is the one created from the configuration as
    [setupBlockstore] left it and then connected; both contract bindings are
    created on the client of that Connection; its Listener is created on that
    Connection with that configuration and the opened blockstore, and holds
    both bindings; its Writer is created on the same Connection and
    configuration and holds the same bridge binding; its [cfg] is the
    [ChainConfig] that was passed in. *)
Theorem InitializeChain_wiring (E : Env) (chainCfg : ChainConfig)
    (logger : Logger E) (ch : Chain E) :
  (run (InitializeChain E chainCfg logger)).1.1 = Some ch →
  ∃ parsed kpI bs b h,
    parseChainConfig E chainCfg = inl parsed ∧
    KeypairFromAddress E (from parsed) EthChain (keystorePath parsed)
      (Insecure chainCfg) = inl kpI ∧
    let kp := match kpI with inl k => Some k | inr _ => None end in
    let seeded := (setupBlockstore E parsed kp []).1 in
    seeded.2 = (Some bs, None) ∧
    Connect E (NewConnection E seeded.1 kp logger) = (conn ch, None) ∧
    NewBridge E (bridgeContract parsed) (conn_conn E (conn ch)) = inl b ∧
    NewERC20Handler E (erc20HandlerContract parsed) (conn_conn E (conn ch)) = inl h ∧
    listener ch
      = Listener_SetContracts E
          (NewListener E (conn ch) seeded.1 logger (Some bs)) b h ∧
    writer ch = Writer_SetContract E (NewWriter E (conn ch) seeded.1 logger) b ∧
    cfg ch = chainCfg.
Proof.
  apply (wp_run (InitializeChain E chainCfg logger) (λ res tr,
    res.1 = Some ch →
    ∃ parsed kpI bs b h,
      parseChainConfig E chainCfg = inl parsed ∧
      KeypairFromAddress E (from parsed) EthChain (keystorePath parsed)
        (Insecure chainCfg) = inl kpI ∧
      let kp := match kpI with inl k => Some k | inr _ => None end in
      let seeded := (setupBlockstore E parsed kp []).1 in
      seeded.2 = (Some bs, None) ∧
      Connect E (NewConnection E seeded.1 kp logger) = (conn ch, None) ∧
      NewBridge E (bridgeContract parsed) (conn_conn E (conn ch)) = inl b ∧
      NewERC20Handler E (erc20HandlerContract parsed) (conn_conn E (conn ch)) = inl h ∧
      listener ch
        = Listener_SetContracts E
            (NewListener E (conn ch) seeded.1 logger (Some bs)) b h ∧
      writer ch = Writer_SetContract E (NewWriter E (conn ch) seeded.1 logger) b ∧
      cfg ch = chainCfg)).
  unfold InitializeChain. repeat wp_step.
  all: try (by intros [=]).
  all: intros [= <-]; simpl.
  all: do 5 eexists; split; [reflexivity|]; split; [eassumption|].
  all: rewrite setupBlockstore_unfold; simpl.
  all: repeat match goal with
       | H : NewBlockstore _ _ _ _ = _ |- _ => rewrite H; clear H
       | H : freshStart _ = _ |- _ => rewrite H; clear H
       | H : TryLoadLatestBlock _ _ = _ |- _ => rewrite H; clear H
       end; simpl.
  all: try (rewrite bool_decide_true by done); try (rewrite bool_decide_false by done).
  all: simpl.
  all: repeat split; try eassumption; try reflexivity.
Qed.

Lemma InitializeChain_wiring_witness :
  ∃ bs, (setupBlockstore (scenarioEnv happy) cfg0 (Some "0xff93") []).1.2
        = (Some bs, None).
Proof.
  destruct (InitializeChain_wiring (scenarioEnv happy) chainCfg0 ()
              (Build_Chain (scenarioEnv happy) chainCfg0 true 0 0) eq_refl)
    as (parsed & kpI & bs & b & h & Hparsed & HkpI & Hseeded & _).
  injection Hparsed as <-. injection HkpI as <-.
  exists bs. exact Hseeded.
Defined.
(** X5.  [InitializeChain] makes its calls in one fixed order and stops at
    the first that fails: when the configuration does not parse, the parse is
    the only call; otherwise the calls made are an initial part of the list
    of all the steps; and on every path no call but the last one answered an
    error. *)
Theorem InitializeChain_stops_at_first_failure (E : Env)
    (chainCfg : ChainConfig) (logger : Logger E) :
  let out := run (InitializeChain E chainCfg logger) in
  (∀ err, parseChainConfig E chainCfg = inr err →
     out.2 = [(EParseChainConfig chainCfg, Some err)])
  ∧ (∀ cfg, parseChainConfig E chainCfg = inl cfg →
       calls out.2 `prefix_of` init_calls chainCfg cfg)
  ∧ Forall (λ en, en.2 = None) (take (pred (length out.2)) out.2).
Proof.
  intros out. subst out.
  apply (wp_run (InitializeChain E chainCfg logger) (λ res tr,
    (∀ err, parseChainConfig E chainCfg = inr err →
       tr = [(EParseChainConfig chainCfg, Some err)])
    ∧ (∀ cfg, parseChainConfig E chainCfg = inl cfg →
         calls tr `prefix_of` init_calls chainCfg cfg)
    ∧ Forall (λ en, en.2 = None) (take (pred (length tr)) tr))).
  unfold InitializeChain. repeat wp_step.
  all: split; [by intros ? [= <-]|split]; [|simpl; by repeat constructor].
  all: try (by intros ? [=]).
  all: intros ? [= <-]; unfold init_calls, calls; simpl.
  all: try match goal with H : freshStart _ = _ |- _ => rewrite H end.
  all: by eexists.
Qed.

Lemma InitializeChain_stops_at_first_failure_witness :
  calls (run (InitializeChain (scenarioEnv refused) chainCfg0 ())).2
    `prefix_of` init_calls chainCfg0 cfg0.
Proof.
  exact (proj1 (proj2 (InitializeChain_stops_at_first_failure
                         (scenarioEnv refused) chainCfg0 ())) cfg0 eq_refl).
Defined.

(** X6.  [InitializeChain] creates at most two contract bindings, and only
    these: the Bridge at [cfg.bridgeContract] and the ERC20 handler at
    [cfg.erc20HandlerContract]; the generic handler, whose bytecode it
    checks, gets no binding.  It starts and stops nothing, registers nothing
    with a Router and closes no Connection, also when a step fails after the
    Connection was connected. *)
Theorem InitializeChain_binds_two_starts_nothing (E : Env)
    (chainCfg : ChainConfig) (logger : Logger E) :
  let out := run (InitializeChain E chainCfg logger) in
  (∀ ev, ev ∈ calls out.2 → isLifecycle ev = false)
  ∧ (∀ ev, ev ∈ calls out.2 → isBinding ev = true →
       ∃ cfg, parseChainConfig E chainCfg = inl cfg ∧
         (ev = ENewBridge (bridgeContract cfg) ∨
          ev = ENewERC20Handler (erc20HandlerContract cfg)))
  ∧ (length (filter (λ ev, isBinding ev = true) (calls out.2)) ≤ 2)%nat.
Proof.
  intros out. subst out.
  apply (wp_run (InitializeChain E chainCfg logger) (λ res tr,
    (∀ ev, ev ∈ calls tr → isLifecycle ev = false)
    ∧ (∀ ev, ev ∈ calls tr → isBinding ev = true →
         ∃ cfg, parseChainConfig E chainCfg = inl cfg ∧
           (ev = ENewBridge (bridgeContract cfg) ∨
            ev = ENewERC20Handler (erc20HandlerContract cfg)))
    ∧ (length (filter (λ ev, isBinding ev = true) (calls tr)) ≤ 2)%nat)).
  unfold InitializeChain. repeat wp_step.
  all: unfold calls; simpl.
  all: split; [|split]; [| |lia].
  all: intros ev Hin;
    repeat (apply elem_of_cons in Hin as [->|Hin]; [simpl; try done; eauto|]);
    by apply elem_of_nil in Hin.
Qed.

Lemma InitializeChain_binds_two_starts_nothing_witness :
  ∃ cfg, parseChainConfig (scenarioEnv happy) chainCfg0 = inl cfg ∧
    (@ENewBridge (scenarioEnv happy) 1%N = ENewBridge (bridgeContract cfg) ∨
     @ENewBridge (scenarioEnv happy) 1%N
     = ENewERC20Handler (erc20HandlerContract cfg)).
Proof.
  apply (proj1 (proj2 (InitializeChain_binds_two_starts_nothing
                         (scenarioEnv happy) chainCfg0 ()))
           (@ENewBridge (scenarioEnv happy) 1%N));
    [vm_compute; repeat constructor | reflexivity].
Defined.

(** ** The life cycle of a [Chain] *)

(** X7.  When the Listener has started and the Writer fails to start,
    [Chain.Start] returns the error of the Writer and leaves the Listener
    started: the calls are [Listener.Start] and [Writer.Start] and nothing
    else, so nothing is stopped.  The line [Successfully started chain] is
    logged exactly when [Chain.Start] returns nil.  [Chain.Start] changes
    neither the configuration nor the Connection of the chain. *)
Theorem Start_writer_failure_keeps_listener (E : Env) (c : Chain E) :
  let out := run (Start E c) in
  (∀ l err, Listener_Start E (listener c) = (l, None) →
     (Writer_Start E (writer c)).2 = Some err →
     out.1.2 = Some err ∧
     listener out.1.1 = l ∧
     calls out.2 = [EListenerStart (listener c); EWriterStart (writer c)])
  ∧ (out.1.2 = None ↔
     ∃ w, EWriterLogDebug w "Successfully started chain" ∈ calls out.2)
  ∧ cfg out.1.1 = cfg c ∧ conn out.1.1 = conn c.
Proof.
  intros out. subst out. rewrite Start_unfold.
  destruct (Listener_Start E (listener c)) as [l [lerr|]]; simpl.
  - split; [by intros ? ? [=]|]. split; [|done]. split; [done|].
    intros [w Hin]. apply list_elem_of_singleton in Hin. done.
  - destruct (Writer_Start E (writer c)) as [w [werr|]]; simpl.
    + split; [by intros ? ? [= <-] [= <-]|]. split; [|done]. split; [done|].
      intros [w' Hin].
      repeat (apply elem_of_cons in Hin as [Hin|Hin]; [done|]).
      by apply elem_of_nil in Hin.
    + split; [by intros ? ? _ [=]|]. split; [|done]. split; [|done].
      intros _. exists w. unfold calls. simpl. repeat constructor.
Qed.

Lemma Start_writer_failure_keeps_listener_witness :
  calls (run (Start (scenarioEnv writer_down) (chain_in writer_down))).2
  = [EListenerStart (listener (chain_in writer_down));
     EWriterStart (writer (chain_in writer_down))].
Proof.
  destruct (Start_writer_failure_keeps_listener (scenarioEnv writer_down)
              (chain_in writer_down)) as [Hfail _].
  destruct (Hfail 2 (OtherError "writer cannot start") eq_refl eq_refl)
    as (_ & _ & Hcalls).
  exact Hcalls.
Defined.

(** X8.  [Chain.Stop] returns at the first stop that fails.  When the
    Listener fails to stop, its error is returned, the Writer is not stopped
    and the Connection is not closed; when the Listener has stopped and the
    Writer fails to stop, its error is returned and the Connection is not
    closed.  The Connection is closed exactly when [Chain.Stop] returns nil. *)
Theorem Stop_error_closes_nothing (E : Env) (c : Chain E) :
  let out := run (Stop E c) in
  (∀ err, (Listener_Stop E (listener c)).2 = Some err →
     out.1.2 = Some err ∧
     calls out.2 = [EListenerStop (listener c)] ∧
     writer out.1.1 = writer c ∧ conn out.1.1 = conn c)
  ∧ (∀ err, (Listener_Stop E (listener c)).2 = None →
       (Writer_Stop E (writer c)).2 = Some err →
       out.1.2 = Some err ∧
       calls out.2 = [EListenerStop (listener c); EWriterStop (writer c)] ∧
       listener out.1.1 = (Listener_Stop E (listener c)).1 ∧
       conn out.1.1 = conn c)
  ∧ (out.1.2 = None ↔ ∃ cn, EConnClose cn ∈ calls out.2)
  ∧ cfg out.1.1 = cfg c.
Proof.
  intros out. subst out. rewrite Stop_unfold.
  destruct (Listener_Stop E (listener c)) as [l [lerr|]]; simpl.
  - split; [by intros ? [= <-]|]. split; [by intros ? [=]|]. split; [|done].
    split; [done|]. intros [cn Hin]. apply list_elem_of_singleton in Hin. done.
  - destruct (Writer_Stop E (writer c)) as [w [werr|]]; simpl.
    + split; [by intros ? [=]|]. split; [by intros ? _ [= <-]|]. split; [|done].
      split; [done|]. intros [cn Hin].
      repeat (apply elem_of_cons in Hin as [Hin|Hin]; [done|]).
      by apply elem_of_nil in Hin.
    + split; [by intros ? [=]|]. split; [by intros ? _ [=]|]. split; [|done].
      split; [|done]. intros _. exists (conn c). unfold calls. simpl.
      repeat constructor.
Qed.

Lemma Stop_error_closes_nothing_witness :
  calls (run (Stop (scenarioEnv writer_stuck) (chain_in writer_stuck))).2
  = [EListenerStop (listener (chain_in writer_stuck));
     EWriterStop (writer (chain_in writer_stuck))]
  ∧ conn (run (Stop (scenarioEnv writer_stuck) (chain_in writer_stuck))).1.1
    = conn (chain_in writer_stuck).
Proof.
  destruct (Stop_error_closes_nothing (scenarioEnv writer_stuck)
              (chain_in writer_stuck)) as (_ & Hfail & _).
  destruct (Hfail (OtherError "writer cannot stop") eq_refl eq_refl)
    as (_ & Hcalls & _ & Hconn).
  split; [exact Hcalls | exact Hconn].
Defined.

(** X9.  What [Id] and [Name] answer is the same after [Chain.Start] and
    after [Chain.Stop], whether they succeed or not, and after
    [Chain.SetRouter]; [Chain.SetRouter] registers with the Router, under the
    identifier that [Id] answers, the Writer that [GetWriter] answers, and
    [GetWriter] answers the same Writer afterwards. *)
Theorem Chain_identity_kept (E : Env) (c : Chain E) (r : Router E) :
  Chain_Id (run (Start E c)).1.1 = Chain_Id c
  ∧ Chain_Name (run (Start E c)).1.1 = Chain_Name c
  ∧ Chain_Id (run (Stop E c)).1.1 = Chain_Id c
  ∧ Chain_Name (run (Stop E c)).1.1 = Chain_Name c
  ∧ (∃ o rest,
       (run (SetRouter E c r)).2
       = (ERouterListen r (Chain_Id c) (GetWriter c), o) :: rest)
  ∧ (∀ c', (run (SetRouter E c r)).1 = inl c' →
       Chain_Id c' = Chain_Id c ∧ Chain_Name c' = Chain_Name c ∧
       GetWriter c' = GetWriter c).
Proof.
  unfold Chain_Id, Chain_Name, GetWriter.
  rewrite Start_unfold, Stop_unfold.
  split; [|split; [|split; [|split; [|split]]]].
  - destruct (Listener_Start E (listener c)) as [l [lerr|]]; simpl; [done|].
    by destruct (Writer_Start E (writer c)) as [w [werr|]].
  - destruct (Listener_Start E (listener c)) as [l [lerr|]]; simpl; [done|].
    by destruct (Writer_Start E (writer c)) as [w [werr|]].
  - destruct (Listener_Stop E (listener c)) as [l [lerr|]]; simpl; [done|].
    by destruct (Writer_Stop E (writer c)) as [w [werr|]].
  - destruct (Listener_Stop E (listener c)) as [l [lerr|]]; simpl; [done|].
    by destruct (Writer_Stop E (writer c)) as [w [werr|]].
  - unfold SetRouter. unfold_go.
    destruct (Router_Listen E r (Id (cfg c)) (writer c)); simpl; eauto.
  - unfold SetRouter. unfold_go.
    destruct (Router_Listen E r (Id (cfg c)) (writer c)); simpl; [done|].
    by intros c' [= <-].
Qed.

Lemma Chain_identity_kept_witness :
  ∃ c', (run (SetRouter (scenarioEnv happy) chain0 "router")).1 = inl c'
        ∧ Chain_Id c' = 0%N ∧ Chain_Name c' = "alice".
Proof.
  exists chain0. split; [reflexivity|].
  destruct (Chain_identity_kept (scenarioEnv happy) chain0 "router")
    as (_ & _ & _ & _ & _ & Hset).
  destruct (Hset chain0 eq_refl) as (Hid & Hname & _).
  split; [exact Hid | exact Hname].
Defined.

(** X10.  [Chain.Stop] after a [Chain.Start], both returning nil: the
    Listener and the Writer that are stopped are those that [Chain.Start]
    left started, in this order, and the Connection that is closed is the one
    the chain had before it was started. *)
Theorem Stop_after_Start (E : Env) (c : Chain E) :
  let started := run (Start E c) in
  let stopped := run (Stop E started.1.1) in
  started.1.2 = None → stopped.1.2 = None →
  calls stopped.2
    = [EListenerStop (Listener_Start E (listener c)).1;
       EWriterStop (Writer_Start E (writer c)).1;
       EConnClose (conn c)]
  ∧ stopped.1.1
    = {| cfg := cfg c; conn := Connection_Close E (conn c);
         listener := (Listener_Stop E (Listener_Start E (listener c)).1).1;
         writer := (Writer_Stop E (Writer_Start E (writer c)).1).1 |}.
Proof.
  intros started stopped. subst started stopped.
  rewrite Stop_unfold, Start_unfold.
  destruct (Listener_Start E (listener c)) as [l [lerr|]]; simpl; [done|].
  destruct (Writer_Start E (writer c)) as [w [werr|]]; simpl; [done|].
  intros _.
  destruct (Listener_Stop E l) as [l' [lerr|]]; simpl; [done|].
  destruct (Writer_Stop E w) as [w' [werr|]]; simpl; [done|].
  done.
Qed.

Lemma Stop_after_Start_witness :
  calls (run (Stop (scenarioEnv happy)
                (run (Start (scenarioEnv happy) chain0)).1.1)).2
  = [EListenerStop (Listener_Start (scenarioEnv happy) (listener chain0)).1;
     EWriterStop (Writer_Start (scenarioEnv happy) (writer chain0)).1;
     EConnClose (conn chain0)].
Proof.
  exact (proj1 (Stop_after_Start (scenarioEnv happy) chain0 eq_refl eq_refl)).
Defined.

(** X11.  [Chain.Start] after [Chain.SetRouter]: the Listener that is
    started is the one that was given the Router, and a Writer that is
    started is the Writer that [Chain.SetRouter] registered with the Router
    under the identifier of the chain. *)
Theorem Start_after_SetRouter (E : Env) (c c1 : Chain E) (r : Router E) :
  (run (SetRouter E c r)).1 = inl c1 →
  let out := run (Start E c1) in
  (∃ o rest,
     out.2 = (EListenerStart (Listener_SetRouter E (listener c) r), o) :: rest)
  ∧ (∀ w, EWriterStart w ∈ calls out.2 →
       ERouterListen r (Chain_Id c) w ∈ calls (run (SetRouter E c r)).2).
Proof.
  intros Hset out. subst out. rewrite Start_unfold.
  revert Hset. unfold SetRouter, Chain_Id. unfold_go.
  destruct (Router_Listen E r (Id (cfg c)) (writer c)) as [err|]; simpl; [done|].
  intros [= <-]. simpl.
  destruct (Listener_Start E _) as [l [lerr|]]; simpl.
  - split; [eauto|]. intros w Hin. apply list_elem_of_singleton in Hin. done.
  - destruct (Writer_Start E (writer c)) as [w [werr|]]; simpl.
    all: split; [eauto|]; intros w' Hin.
    all: repeat (apply elem_of_cons in Hin as [Hin|Hin];
                 [simplify_eq; try by left|]).
    all: by apply elem_of_nil in Hin.
Qed.

Lemma Start_after_SetRouter_witness :
  ERouterListen ("router" : Router (scenarioEnv happy)) 0%N 1
    ∈ calls (run (SetRouter (scenarioEnv happy) chain0 "router")).2.
Proof.
  refine (proj2 (Start_after_SetRouter (scenarioEnv happy) chain0 chain0
                   "router" eq_refl) 1 _).
  vm_compute. repeat constructor.
Defined.

(** ** The helpers of the test file *)

Lemma SetBytes_from (a : Z) (buf : list Byte.byte) :
  foldl (λ acc b, acc * 256 + Z.of_N (Byte.to_N b)) a buf
  = a * 256 ^ Z.of_nat (length buf) + SetBytes buf.
Proof.
  unfold SetBytes. revert a. induction buf as [|b buf IH]; intros a.
  - simpl. lia.
  - cbn [foldl length]. rewrite IH, (IH (0 * 256 + _)).
    rewrite Nat2Z.inj_succ, Z.pow_succ_r by lia. lia.
Qed.

Lemma SetBytes_cons (b : Byte.byte) (buf : list Byte.byte) :
  SetBytes (b :: buf)
  = Z.of_N (Byte.to_N b) * 256 ^ Z.of_nat (length buf) + SetBytes buf.
Proof. unfold SetBytes at 1. cbn [foldl]. by rewrite SetBytes_from. Qed.

(** The low byte of a number. *)
Lemma low_byte (n : N) :
  Byte.to_N (default Byte.x00 (Byte.of_N (n mod 256)%N)) = (n mod 256)%N.
Proof.
  destruct (Byte.of_N (n mod 256)%N) as [b|] eqn:Hb.
  - by apply Byte.to_of_N.
  - apply Byte.of_N_None_iff in Hb.
    pose proof (N.mod_upper_bound n 256). lia.
Qed.

Lemma size_div_256 (n : N) : n ≠ 0%N → (N.size (n / 256) < N.size n)%N.
Proof.
  intros Hn. destruct (decide (n / 256 = 0)%N) as [->|Hm].
  - destruct n; [done|]. simpl. lia.
  - apply (N.pow_lt_mono_r_iff 2); [lia|].
    eapply N.le_lt_trans; [apply N.size_le; exact Hm|].
    eapply N.le_lt_trans; [|apply N.size_gt].
    pose proof (N.Div0.mul_div_le n 256). lia.
Qed.

Lemma be_bytes_SetBytes (fuel : nat) (n : N) (acc : list Byte.byte) :
  (N.to_nat (N.size n) ≤ fuel)%nat →
  SetBytes (be_bytes fuel n acc)
  = Z.of_N n * 256 ^ Z.of_nat (length acc) + SetBytes acc.
Proof.
  revert n acc. induction fuel as [|fuel IH]; intros n acc Hfuel.
  - assert (n = 0%N) as -> by (destruct n; [done|simpl in Hfuel; lia]).
    simpl. lia.
  - cbn [be_bytes]. destruct (N.eqb_spec n 0) as [->|Hn]; [simpl; lia|].
    rewrite IH by (pose proof (size_div_256 n Hn); lia).
    rewrite SetBytes_cons, low_byte. cbn [length].
    rewrite Nat2Z.inj_succ, Z.pow_succ_r by lia.
    rewrite (N.div_mod n 256) at 3 by done. lia.
Qed.

Lemma be_bytes_head (fuel : nat) (n : N) (acc : list Byte.byte) :
  n ≠ 0%N → (N.to_nat (N.size n) ≤ fuel)%nat →
  head (be_bytes fuel n acc) ≠ Some Byte.x00.
Proof.
  revert n acc. induction fuel as [|fuel IH]; intros n acc Hn Hfuel.
  - destruct n; [done|simpl in Hfuel; lia].
  - cbn [be_bytes]. destruct (N.eqb_spec n 0) as [->|_]; [done|].
    destruct (decide (n / 256 = 0)%N) as [Hz|Hm].
    + rewrite Hz. replace (be_bytes fuel 0 _) with
        (default Byte.x00 (Byte.of_N (n mod 256)) :: acc) by by destruct fuel.
      simpl. intros [= Hb]. apply (f_equal Byte.to_N) in Hb.
      rewrite low_byte in Hb. simpl in Hb.
      pose proof (N.div_mod n 256 ltac:(done)) as Hdiv.
      rewrite Hz, Hb in Hdiv. done.
    + apply IH; [done|]. pose proof (size_div_256 n Hn). lia.
Qed.

(** X12.  [big.Int.Bytes], as the test uses it for the amount of the
    expected Message, is the big-endian encoding of the absolute value:
    reading the bytes back with [SetBytes] gives the absolute value, the
    first byte is never zero, and the encoding is empty exactly for zero. *)
Theorem Bytes_round_trip (x : Z) :
  SetBytes (Bytes x) = Z.abs x
  ∧ head (Bytes x) ≠ Some Byte.x00
  ∧ (Bytes x = [] ↔ x = 0).
Proof.
  assert (SetBytes (Bytes x) = Z.abs x) as Hrt.
  { unfold Bytes. rewrite be_bytes_SetBytes, N2Z.inj_abs_N by done.
    unfold SetBytes. simpl. lia. }
  split; [done|]. split.
  - destruct (decide (x = 0)) as [->|Hx]; [done|].
    unfold Bytes. apply be_bytes_head; [lia|done].
  - split; [|by intros ->].
    intros Hnil. rewrite Hnil in Hrt. unfold SetBytes in Hrt. cbn [foldl] in Hrt.
    lia.
Qed.
